(** * Cival Dashboard: the MCP tool gateway and the agent decision loop

    A shallow embedding of two TypeScript services of the dashboard,

    - [MCPIntegrationService] (tool registry, per-agent permissions,
      sessions, call log, tool dispatch), and
    - [AgentDecisionLoop] (per-agent timers, decision cycles, decision
      validation, error handling, bulk start),

    followed by the properties established about them.

    Conventions of the embedding.
    - A JavaScript [number] that holds a count or a clock reading is a [Z]
      (exact while its magnitude stays below 2^53, as counts and
      millisecond readings do). A number the code does arithmetic on and
      then stores or compares (a price, a quantity, cash, a rate, an
      average) is a binary64 [float], with the rounding, the infinities
      and [NaN] of the JavaScript double; a decimal literal denotes the
      nearest double, as in the source. A number that is only carried in a
      JavaScript value, and the ratios of [getAgentStats], are a [Q].
    - A JavaScript [Map] whose iteration order the code observes
      ([Array.from(m.values())]) is an insertion-ordered association list
      ([JsMap]); a [Map] only used through [get]/[set]/[delete] is a
      [gmap].
    - [Date.now()] and [Math.random()] are inputs: every operation takes
      the readings it makes as arguments.
    - A thrown [Error] is the [Thrown] outcome carrying its message; what
      the collaborators throw is taken to be an instance of [Error]
      proper, whose string form is ["Error: "] followed by the message.
    - [emit], [console.*] and [persistData] (a [localStorage] snapshot
      inside its own try/catch) change nothing the services read back and
      are left out. *)

From Stdlib Require Import QArith Floats.
From stdpp Require Import base strings list gmap pretty.

Set Warnings "-register-all".
Set Warnings "-inexact-float".

Open Scope string_scope.
Open Scope list_scope.
Open Scope Z_scope.

(** ** JavaScript values and outcomes *)

Inductive JsValue : Type :=
| JUndefined
| JNull
| JBool (b : bool)
| JNum (q : Q)
| JStr (s : string)
| JArr (items : list JsValue)
| JObj (fields : list (string * JsValue)).

(** [Record<string, any>] *)
Definition JsRecord : Type := list (string * JsValue).

(** Property read [o.k]; [undefined] when the property is absent. *)
Fixpoint js_prop (k : string) (o : JsRecord) : JsValue :=
  match o with
  | [] => JUndefined
  | (k', v) :: o' => if bool_decide (k' = k) then v else js_prop k o'
  end.

(** Property read [v.k] or [v?.k] on a value that is an object or
    [undefined]. *)
Definition js_get (k : string) (v : JsValue) : JsValue :=
  match v with
  | JObj fields => js_prop k fields
  | _ => JUndefined
  end.

(** ToBoolean. *)
Definition truthy (v : JsValue) : bool :=
  match v with
  | JUndefined | JNull => false
  | JBool b => b
  | JNum q => negb (Qeq_bool q 0)
  | JStr s => negb (bool_decide (s = ""))
  | JArr _ | JObj _ => true
  end.

(** [a || b] *)
Definition js_or (a b : JsValue) : JsValue := if truthy a then a else b.

(** What awaiting a call gives: a value, or a thrown [Error] with its
    message. *)
Inductive Outcome (A : Type) : Type :=
| Returned (a : A)
| Thrown (message : string).
Arguments Returned {A} a.
Arguments Thrown {A} message.

Definition is_returned {A} (o : Outcome A) : bool :=
  match o with Returned _ => true | Thrown _ => false end.

(** ** Insertion-ordered maps

    [Map.prototype.set] replaces the value of a key that is present,
    keeping its position, and appends a new key at the end;
    [Array.from(m.values())] lists the values in that order. *)

Definition JsMap (V : Type) : Type := list (string * V).

Fixpoint jm_get {V} (k : string) (m : JsMap V) : option V :=
  match m with
  | [] => None
  | (k', v) :: m' => if bool_decide (k' = k) then Some v else jm_get k m'
  end.

Fixpoint jm_set {V} (k : string) (v : V) (m : JsMap V) : JsMap V :=
  match m with
  | [] => [(k, v)]
  | (k', v') :: m' =>
      if bool_decide (k' = k) then (k, v) :: m' else (k', v') :: jm_set k v m'
  end.

Definition jm_values {V} (m : JsMap V) : list V := m.*2.

(** ** MCPIntegrationService: data model *)

Inductive Category : Type :=
| trading | defi | analysis | system | communication | data.

Definition category_name (c : Category) : string :=
  match c with
  | trading => "trading"
  | defi => "defi"
  | analysis => "analysis"
  | system => "system"
  | communication => "communication"
  | data => "data"
  end.

Inductive ParamType : Type :=
| TString | TNumber | TBoolean | TObject | TArray.

Record Validation : Type := {
  v_min : option Q;
  v_max : option Q;
  v_pattern : option string;
  v_enum : option (list string)
}.

Record MCPParameter : Type := {
  p_name : string;
  p_type : ParamType;
  p_description : string;
  p_required : bool;
  p_default : option JsValue;
  p_validation : option Validation
}.

Record ToolUsage : Type := {
  totalCalls : Z;
  lastUsed : Z;
  successRate : float;
  avgResponseTime : float
}.

Record MCPTool : Type := {
  tool_id : string;
  tool_name : string;
  tool_description : string;
  category : Category;
  version : string;
  permissions : list string;
  parameters : list MCPParameter;
  enabled : bool;
  usage : ToolUsage
}.

Record Restrictions : Type := {
  maxCallsPerMinute : Z;
  maxCallsPerDay : Z;
  requireApproval : list string;
  blockedTools : list string
}.

Inductive LogLevel : Type := minimal | detailed | verbose.

Record Audit : Type := {
  audit_enabled : bool;
  logLevel : LogLevel;
  retentionDays : Z
}.

Record MCPAgentPermissions : Type := {
  perm_agentId : string;
  allowedTools : list string;
  allowedCategories : list string;
  restrictions : Restrictions;
  audit : Audit
}.

Record CallContext : Type := {
  sessionId : string;
  requestId : string;
  userContext : JsValue
}.

Record MCPCallLog : Type := {
  log_id : string;
  log_agentId : string;
  log_toolId : string;
  log_parameters : JsRecord;
  response : JsValue;
  success : bool;
  error : option string;
  timestamp : Z;
  duration : Z;
  log_context : CallContext
}.

Inductive SessionStatus : Type :=
| SessActive | SessCompleted | SessError | SessTimeout.

Record MCPSession : Type := {
  sess_id : string;
  sess_agentId : string;
  startTime : Z;
  endTime : option Z;
  sess_totalCalls : Z;
  successfulCalls : Z;
  failedCalls : Z;
  sess_tools : list string;
  sess_context : JsRecord;
  sess_status : SessionStatus
}.

Record RateLimit : Type := {
  rl_count : Z;
  resetTime : Z
}.

(** The collaborators the service loads lazily; each reference is [null]
    when its import failed ([.catch(() => null)]).
    - [getAgent] is [agentPersistenceService?.getAgent]: the stored agent's
      own [id] field, or [None] when the agent is unknown (or the service
      is [null]).
    - [placeOrder] is [persistentTradingEngine?.placeOrder] on the
      argument list it is given.
    - [createTodoItem] is [agentTodoService?.createTodo] on the agent id
      and the todo object. *)
Record Services : Type := {
  getAgent : string → option string;
  placeOrder : option (list JsValue → Outcome JsValue);
  createTodoItem : option (JsValue → JsValue → Outcome JsValue)
}.

(** The private fields of the service that the modelled methods touch
    ([servers] is only read by the heartbeat). [dispatched] is a ghost
    trace: one entry, tool id and parameters, for every entry into one of
    the three tool implementations ([executeTradeOrder],
    [analyzeMarketSentiment], [createTodo]). *)
Record MCPState : Type := {
  tools : JsMap MCPTool;
  agentPermissions : gmap string MCPAgentPermissions;
  callLogs : list MCPCallLog;
  sessions : JsMap MCPSession;
  rateLimits : gmap string RateLimit;
  dispatched : list (string * JsRecord)
}.

Definition set_tools (f : JsMap MCPTool → JsMap MCPTool) (st : MCPState) : MCPState :=
  {| tools := f (tools st); agentPermissions := agentPermissions st;
     callLogs := callLogs st; sessions := sessions st;
     rateLimits := rateLimits st; dispatched := dispatched st |}.

Definition set_callLogs (l : list MCPCallLog) (st : MCPState) : MCPState :=
  {| tools := tools st; agentPermissions := agentPermissions st;
     callLogs := l; sessions := sessions st;
     rateLimits := rateLimits st; dispatched := dispatched st |}.

Definition record_dispatch (toolId : string) (params : JsRecord) (st : MCPState) : MCPState :=
  {| tools := tools st; agentPermissions := agentPermissions st;
     callLogs := callLogs st; sessions := sessions st;
     rateLimits := rateLimits st;
     dispatched := dispatched st ++ [(toolId, params)] |}.

(** ** MCPIntegrationService: operations *)

(** [initializeDefaultTools]: the three tools of the registry. *)
Definition fresh_usage : ToolUsage :=
  {| totalCalls := 0; lastUsed := 0; successRate := 0; avgResponseTime := 0 |}.

Definition param (name : string) (ty : ParamType) (descr : string)
    (required : bool) (validation : option Validation) : MCPParameter :=
  {| p_name := name; p_type := ty; p_description := descr;
     p_required := required; p_default := None; p_validation := validation |}.

Definition one_of (values : list string) : option Validation :=
  Some {| v_min := None; v_max := None; v_pattern := None; v_enum := Some values |}.

Definition at_least (lo : Q) : option Validation :=
  Some {| v_min := Some lo; v_max := None; v_pattern := None; v_enum := None |}.

Definition place_order_tool : MCPTool :=
  {| tool_id := "trading.place_order";
     tool_name := "Place Trading Order";
     tool_description := "Execute a trading order through the paper trading engine";
     category := trading;
     version := "1.0.0";
     permissions := ["trading.execute"];
     parameters :=
       [ param "symbol" TString "Trading pair symbol" true None;
         param "side" TString "Order side (buy/sell)" true (one_of ["buy"; "sell"]);
         param "amount" TNumber "Order amount" true (at_least 0);
         param "type" TString "Order type" false (one_of ["market"; "limit"]);
         param "price" TNumber "Limit price (for limit orders)" false None ];
     enabled := true;
     usage := fresh_usage |}.

Definition market_sentiment_tool : MCPTool :=
  {| tool_id := "analysis.market_sentiment";
     tool_name := "Analyze Market Sentiment";
     tool_description := "Get market sentiment analysis using AI";
     category := analysis;
     version := "1.0.0";
     permissions := ["analysis.read"];
     parameters :=
       [ param "symbol" TString "Asset symbol to analyze" true None;
         param "timeframe" TString "Analysis timeframe" false
           (one_of ["1h"; "4h"; "1d"; "1w"]) ];
     enabled := true;
     usage := fresh_usage |}.

Definition create_todo_tool : MCPTool :=
  {| tool_id := "system.create_todo";
     tool_name := "Create Todo Item";
     tool_description := "Create a new todo item for the agent";
     category := system;
     version := "1.0.0";
     permissions := ["system.write"];
     parameters :=
       [ param "title" TString "Todo title" true None;
         param "description" TString "Todo description" false None;
         param "priority" TString "Todo priority" false
           (one_of ["low"; "medium"; "high"]) ];
     enabled := true;
     usage := fresh_usage |}.

Definition initializeDefaultTools (st : MCPState) : MCPState :=
  set_tools
    (λ m, jm_set "system.create_todo" create_todo_tool
            (jm_set "analysis.market_sentiment" market_sentiment_tool
               (jm_set "trading.place_order" place_order_tool m)))
    st.

(** The service as its field initialisers leave it, and after
    [initializeAsync] has registered the default tools (nothing persisted
    to load). *)
Definition empty_service : MCPState :=
  {| tools := []; agentPermissions := ∅; callLogs := []; sessions := [];
     rateLimits := ∅; dispatched := [] |}.

Definition initial_service : MCPState := initializeDefaultTools empty_service.

(** [array.includes(x)] on strings *)
Definition includes (l : list string) (x : string) : bool := bool_decide (x ∈ l).

Definition getToolsForPermissions (perms : list string) (st : MCPState) : list string :=
  tool_id <$>
    filter (λ tool, existsb (includes perms) (permissions tool)) (jm_values (tools st)).

Definition createAgentPermissions (agent_id : string) (st : MCPState) : MCPAgentPermissions :=
  let basePermissions := ["trading.read"; "analysis.read"; "system.write"; "data.write"] in
  let allowed := getToolsForPermissions basePermissions st in
  {| perm_agentId := agent_id;
     allowedTools := allowed;
     allowedCategories := ["trading"; "analysis"; "system"; "data"];
     restrictions :=
       {| maxCallsPerMinute := 60; maxCallsPerDay := 5000;
          requireApproval := ["trading.place_order"]; blockedTools := [] |};
     audit := {| audit_enabled := true; logLevel := detailed; retentionDays := 30 |} |}.

(** [createSession]; [t_id] and [t_start] are its two clock readings. *)
Definition createSession (agentId : string) (t_id t_start : Z) : MCPSession :=
  {| sess_id := "session_" +:+ agentId +:+ "_" +:+ pretty t_id;
     sess_agentId := agentId;
     startTime := t_start;
     endTime := None;
     sess_totalCalls := 0;
     successfulCalls := 0;
     failedCalls := 0;
     sess_tools := [];
     sess_context := [];
     sess_status := SessActive |}.

Definition set_permissions_and_session (agentId : string)
    (perms : MCPAgentPermissions) (session : MCPSession) (st : MCPState) : MCPState :=
  {| tools := tools st;
     agentPermissions := <[agentId := perms]> (agentPermissions st);
     callLogs := callLogs st;
     sessions := jm_set (sess_id session) session (sessions st);
     rateLimits := rateLimits st;
     dispatched := dispatched st |}.

(** [activateForAgent]: the result object is its [success] flag with its
    [errors]. *)
Definition activateForAgent (svc : Services) (agentId : string) (t_id t_start : Z)
    (st : MCPState) : (bool * list string) * MCPState :=
  match getAgent svc agentId with
  | None => ((false, ["Agent not found"]), st)
  | Some agent_id =>
      let perms := createAgentPermissions agent_id st in
      let session := createSession agentId t_id t_start in
      ((true, []), set_permissions_and_session agentId perms session st)
  end.

Definition is_active (s : MCPSession) : bool :=
  match sess_status s with SessActive => true | _ => false end.

Definition sessions_of (agentId : string) (st : MCPState) : list MCPSession :=
  filter (λ s, sess_agentId s = agentId) (jm_values (sessions st)).

(** The [activeSessions] count of [getAgentStats]. *)
Definition activeSessions (agentId : string) (st : MCPState) : nat :=
  length (filter (λ s, is_active s = true) (sessions_of agentId st)).

Definition getActiveSessionId (agentId : string) (st : MCPState) : string :=
  match filter (λ s, sess_agentId s = agentId ∧ is_active s = true)
               (jm_values (sessions st)) with
  | s :: _ => sess_id s
  | [] => "no-session"
  end.

(** [deactivateForAgent]: [Date.now()] is read once for every session of
    the agent, in the insertion order of the session map; [now k] is the
    reading taken for the [k]-th of them, counting from 0. *)
Definition close_session (now : Z) (s : MCPSession) : MCPSession :=
  {| sess_id := sess_id s; sess_agentId := sess_agentId s;
     startTime := startTime s; endTime := Some now;
     sess_totalCalls := sess_totalCalls s; successfulCalls := successfulCalls s;
     failedCalls := failedCalls s; sess_tools := sess_tools s;
     sess_context := sess_context s; sess_status := SessCompleted |}.

Fixpoint close_sessions (agentId : string) (now : nat → Z) (k : nat)
    (m : JsMap MCPSession) : JsMap MCPSession :=
  match m with
  | [] => []
  | kv :: rest =>
      if bool_decide (sess_agentId kv.2 = agentId) then
        (kv.1, close_session (now k) kv.2) :: close_sessions agentId now (S k) rest
      else kv :: close_sessions agentId now k rest
  end.

Definition deactivateForAgent (agentId : string) (now : nat → Z) (st : MCPState)
    : MCPState :=
  {| tools := tools st;
     agentPermissions := delete agentId (agentPermissions st);
     callLogs := callLogs st;
     sessions := close_sessions agentId now 0 (sessions st);
     rateLimits :=
       filter (λ kv, String.prefix (agentId +:+ ":") kv.1 = false) (rateLimits st);
     dispatched := dispatched st |}.

(** The filter of [getAvailableTools] without its [enabled] conjunct: the
    tool is granted by id or by category, and is not blocked. *)
Definition permits (perms : MCPAgentPermissions) (tool : MCPTool) : bool :=
  (includes (allowedTools perms) (tool_id tool)
   || includes (allowedCategories perms) (category_name (category tool)))
  && negb (includes (blockedTools (restrictions perms)) (tool_id tool)).

Definition getAvailableTools (agentId : string) (st : MCPState) : list MCPTool :=
  match agentPermissions st !! agentId with
  | None => []
  | Some perms =>
      filter (λ tool, enabled tool && permits perms tool = true) (jm_values (tools st))
  end.

(** The object literal [{ agentId, ...context }]: the spread properties
    are assigned after [agentId], so a caller-supplied [agentId] property
    replaces it. *)
Definition spread_context (agentId : string) (context : option JsRecord) : JsRecord :=
  fold_left (λ o kv, jm_set kv.1 kv.2 o) (default [] context) [("agentId", JStr agentId)].

(** [await svc?.method(args)]: [undefined] when the service is [null]. *)
Definition optional_call {A} (f : option (A → Outcome JsValue)) (args : A) : Outcome JsValue :=
  match f with
  | None => Returned JUndefined
  | Some g => g args
  end.

Definition executeTradeOrder (svc : Services) (params context : JsRecord)
    (st : MCPState) : Outcome JsValue * MCPState :=
  let st := record_dispatch "trading.place_order" params st in
  match optional_call (placeOrder svc)
          [ js_prop "agentId" context;
            js_prop "symbol" params;
            js_prop "side" params;
            js_prop "amount" params;
            js_or (js_prop "type" params) (JStr "market");
            js_prop "price" params ] with
  | Thrown e => (Thrown e, st)
  | Returned order =>
      (Returned (JObj [("success", JBool true); ("orderId", js_get "id" order);
                       ("order", order)]), st)
  end.

(** [t_impl] is the clock reading stamped on the answer. *)
Definition analyzeMarketSentiment (params context : JsRecord) (t_impl : Z)
    (st : MCPState) : Outcome JsValue * MCPState :=
  let st := record_dispatch "analysis.market_sentiment" params st in
  (Returned (JObj [("symbol", js_prop "symbol" params);
                   ("sentiment", JStr "Neutral market sentiment (mock data)");
                   ("score", JNum (1 # 10));
                   ("timestamp", JNum (inject_Z t_impl))]), st).

Definition createTodo (svc : Services) (params context : JsRecord)
    (st : MCPState) : Outcome JsValue * MCPState :=
  let st := record_dispatch "system.create_todo" params st in
  let todo_request :=
    JObj [("title", js_prop "title" params);
          ("description", js_or (js_prop "description" params) (JStr ""));
          ("priority", js_or (js_prop "priority" params) (JStr "medium"));
          ("category", JStr "agent-generated");
          ("estimatedDuration", JNum (inject_Z 1800000));
          ("tags", JArr [JStr "mcp-generated"])] in
  match optional_call (uncurry <$> createTodoItem svc)
          (js_prop "agentId" context, todo_request) with
  | Thrown e => (Thrown e, st)
  | Returned todo =>
      (Returned (JObj [("success", JBool true); ("todoId", js_get "id" todo);
                       ("todo", todo)]), st)
  end.

(** [executeTool]: the switch on [tool.id]. *)
Definition executeTool (svc : Services) (tool : MCPTool) (params context : JsRecord)
    (t_impl : Z) (st : MCPState) : Outcome JsValue * MCPState :=
  if bool_decide (tool_id tool = "trading.place_order") then
    executeTradeOrder svc params context st
  else if bool_decide (tool_id tool = "analysis.market_sentiment") then
    analyzeMarketSentiment params context t_impl st
  else if bool_decide (tool_id tool = "system.create_todo") then
    createTodo svc params context st
  else (Thrown ("Tool not implemented: " +:+ tool_id tool), st).

(** [slice(-1000)] applied when the log has grown past 1000 entries. *)
Definition keep_last_1000 (logs : list MCPCallLog) : list MCPCallLog :=
  if bool_decide (1000 < length logs)%nat then drop (length logs - 1000) logs else logs.

(** [logCall]: push, then keep the last 1000 entries. *)
Definition logCall (callLog : MCPCallLog) (st : MCPState) : MCPState :=
  set_callLogs (keep_last_1000 (callLogs st ++ [callLog])) st.

(** The double nearest to an integer (ties to even), which is the
    integer itself up to 2^53 in magnitude. *)
Definition float_of_Z (z : Z) : float :=
  SF2Prim (binary_normalize prec emax z 0 false).

(** [updateToolUsage]: [now] is the clock reading stored in [lastUsed].
    The statements run in the source's order, each reading the fields as
    the earlier ones left them; the products, sums and quotients are those
    of doubles, rounded at every step. *)
Definition bump_usage (succeeded : bool) (dur now : Z) (u : ToolUsage) : ToolUsage :=
  let total := totalCalls u + 1 in
  let successCount :=
    (float_of_Z total * successRate u + (if succeeded then 1 else 0))%float in
  let rate := (successCount / float_of_Z total)%float in
  let totalTime :=
    (avgResponseTime u * float_of_Z (total - 1) + float_of_Z dur)%float in
  {| totalCalls := total;
     lastUsed := now;
     successRate := rate;
     avgResponseTime := (totalTime / float_of_Z total)%float |}.

Definition with_usage (u : ToolUsage) (tool : MCPTool) : MCPTool :=
  {| tool_id := tool_id tool; tool_name := tool_name tool;
     tool_description := tool_description tool; category := category tool;
     version := version tool; permissions := permissions tool;
     parameters := parameters tool; enabled := enabled tool; usage := u |}.

Definition updateToolUsage (toolId : string) (succeeded : bool) (dur now : Z)
    (st : MCPState) : MCPState :=
  match jm_get toolId (tools st) with
  | Some tool =>
      set_tools (jm_set toolId (with_usage (bump_usage succeeded dur now (usage tool)) tool)) st
  | None => st
  end.

(** The clock readings of one [callTool], in program order, and the
    random suffix of its call id. *)
Record CallClock : Type := {
  t_start : Z;      (* const startTime = Date.now() *)
  t_callId : Z;     (* the Date.now() inside callId *)
  t_impl : Z;       (* the Date.now() of analyzeMarketSentiment *)
  t_logged : Z;     (* the Date.now() of callLog.duration *)
  t_usage : Z;      (* the Date.now() of the duration given to updateToolUsage *)
  t_lastUsed : Z;   (* the Date.now() inside updateToolUsage *)
  random_suffix : string
}.

(** The body of the [try] block up to and including the dispatch. *)
Definition checked_dispatch (svc : Services) (clk : CallClock)
    (agentId toolId : string) (params : JsRecord) (context : option JsRecord)
    (st : MCPState) : Outcome JsValue * MCPState :=
  match agentPermissions st !! agentId with
  | None => (Thrown "Agent not registered for MCP", st)
  | Some _ =>
      match jm_get toolId (tools st) with
      | None => (Thrown ("Tool not found or disabled: " +:+ toolId), st)
      | Some tool =>
          if enabled tool then
            executeTool svc tool params (spread_context agentId context) (t_impl clk) st
          else (Thrown ("Tool not found or disabled: " +:+ toolId), st)
      end
  end.

(** The record handed to [logCall]. Its [error] field is
    [error.toString()], which for the [Error] instances that [Thrown]
    stands for is ["Error: "] followed by the message. *)
Definition make_callLog (clk : CallClock) (agentId toolId : string)
    (params : JsRecord) (context : option JsRecord)
    (out : Outcome JsValue) (st : MCPState) : MCPCallLog :=
  let callId := "call_" +:+ pretty (t_callId clk) +:+ "_" +:+ random_suffix clk in
  {| log_id := callId;
     log_agentId := agentId;
     log_toolId := toolId;
     log_parameters := params;
     response := match out with Returned r => r | Thrown _ => JNull end;
     success := is_returned out;
     error := match out with Returned _ => None | Thrown e => Some ("Error: " +:+ e) end;
     timestamp := t_start clk;
     duration := t_logged clk - t_start clk;
     log_context :=
       {| sessionId := getActiveSessionId agentId st;
          requestId := callId;
          userContext := js_prop "userContext" (default [] context) |} |}.

(** [callTool]: both branches of the try/catch log the call and update
    the tool's usage; the catch branch rethrows. *)
Definition callTool (svc : Services) (clk : CallClock) (agentId toolId : string)
    (params : JsRecord) (context : option JsRecord)
    (st : MCPState) : Outcome JsValue * MCPState :=
  let '(out, st1) := checked_dispatch svc clk agentId toolId params context st in
  let callLog := make_callLog clk agentId toolId params context out st1 in
  (out,
   updateToolUsage toolId (is_returned out) (t_usage clk - t_start clk) (t_lastUsed clk)
     (logCall callLog st1)).

(** ** AgentDecisionLoop: data model *)

Inductive AgentStatus : Type :=
| AgActive | AgPaused | AgStopped | AgError.

(** The [config] object of an agent. The code reads [decisionInterval]
    and [maxRiskPerTrade] through [||] only, so a field that is missing
    behaves as a falsy number does (0 for the interval, [NaN] for the
    risk share). *)
Record AgentConfig : Type := {
  decisionInterval : Z;
  maxRiskPerTrade : float;
  symbols : list string;
  strategy : JsValue
}.

Record Performance : Type := {
  totalPnL : float;
  winRate : float;
  trades : Z;
  successfulDecisions : Z;
  totalDecisions : Z
}.

Record Agent : Type := {
  agent_id : string;
  agent_name : string;
  agent_type : string;
  status : AgentStatus;
  config : AgentConfig;
  performance : Performance;
  memory : JsValue
}.

Record Position : Type := {
  pos_symbol : string;
  pos_quantity : float;
  avgPrice : float;
  currentPrice : float;
  unrealizedPnL : float
}.

Record Portfolio : Type := {
  totalValue : float;
  cash : float;
  positions : list Position;
  pnl : float
}.

(** Modelled from the spec: the declaration of [AIDecision] is imported
    from the LLM service module, which is not among the sources. The
    record has the fields the decision loop reads ([action], [reasoning],
    [symbol], [quantity], [price], [confidence]); a field that is
    [undefined] is [None]. *)
Record AIDecision : Type := {
  action : option string;
  reasoning : option string;
  symbol : option string;
  quantity : option float;
  price : option float;
  confidence : option float
}.

(** The interval handle: what [setInterval] was given, i.e. the agent
    object its callback closes over and the period. The callback reads
    the captured agent's [id] and [config] only; its [performance] object,
    which the copies stored in [agentStates] share and mutate, is read
    through [agentStates] alone, where the model keeps it. *)
Record Timer : Type := {
  timer_agent : Agent;
  timer_interval : Z
}.

(** The two private maps of the loop. Every [setInterval] is followed by
    [activeLoops.set] and every [clearInterval] by [activeLoops.delete],
    so the armed timers are the entries of [activeLoops]. [statusPosts]
    is a ghost trace of the [updateAgentStatus] calls, one entry per call
    whether its save went through or threw. *)
Record LoopState : Type := {
  activeLoops : gmap string Timer;
  agentStates : gmap string Agent;
  statusPosts : list (string * AgentStatus)
}.

(** What the backend answers while agents are started:
    - [loadAgent] is the private method of that name (backend first, then
      [localStorage]; [None] is its [null]; [Thrown] is a [JSON.parse]
      failure of the stored copy);
    - [listAgents] is [backendApi.get('/api/v1/agents')], each entry with
      its [id], its [status] string and the truthiness of [auto_start]
      ([response.data || []] already applied);
    - [saveStatus n agentId status] is what the [n]-th status save of the
      run does (counting from 0): [Returned] when the POST goes through or,
      failing that, [localStorage.setItem] does; [Thrown] with the message
      of the storage error when both fail. *)
Record BackendAgent : Type := {
  ba_id : string;
  ba_status : string;
  auto_start : bool
}.

Record Backend : Type := {
  loadAgent : string → Outcome (option Agent);
  listAgents : Outcome (list BackendAgent);
  saveStatus : nat → string → AgentStatus → Outcome unit
}.

(** What one decision cycle obtains from the outside: the portfolio
    snapshot, the LLM's decision, and whether [executeDecision] and
    [updateMemory] complete or throw. (Market data and memory only feed
    the LLM request.) *)
Record CycleInputs : Type := {
  cy_portfolio : Portfolio;
  cy_decision : Outcome AIDecision;
  cy_execution : Outcome unit;
  cy_memory : Outcome unit
}.

(** ** AgentDecisionLoop: operations *)

(** Truthiness of an optional string and of an optional number (a
    number is falsy when it is 0, -0 or NaN). *)
Definition str_truthy (s : option string) : bool :=
  match s with
  | Some s => negb (bool_decide (s = ""))
  | None => false
  end.

Definition num_truthy (q : option float) : bool :=
  match q with
  | Some q => negb (is_zero q) && negb (is_nan q)
  | None => false
  end.

(** [x || d] on numbers *)
Definition num_or (q : option float) (d : float) : float :=
  if num_truthy q then default d q else d.

(** [decision.quantity * (decision.price || 0)], a double product *)
Definition estimated_cost (decision : AIDecision) : float :=
  (default 0 (quantity decision) * num_or (price decision) 0)%float.

(** [portfolio.cash * (config.maxRiskPerTrade || 0.05)], a double
    product *)
Definition max_risk (portfolio : Portfolio) (cfg : AgentConfig) : float :=
  (cash portfolio * num_or (Some (maxRiskPerTrade cfg)) 0.05)%float.

(** [a > b] on numbers *)
Definition gt_bool (a b : float) : bool := (b <? a)%float.

Definition validateDecision (decision : AIDecision) (portfolio : Portfolio)
    (cfg : AgentConfig) : bool :=
  if negb (str_truthy (action decision)) || negb (str_truthy (reasoning decision)) then
    false
  else if bool_decide (action decision = Some "buy") && num_truthy (quantity decision)
          && gt_bool (estimated_cost decision) (max_risk portfolio cfg) then
    false
  else if str_truthy (symbol decision)
          && negb (includes (symbols cfg) (default "" (symbol decision))) then
    false
  else true.

Definition with_status (s : AgentStatus) (a : Agent) : Agent :=
  {| agent_id := agent_id a; agent_name := agent_name a; agent_type := agent_type a;
     status := s; config := config a; performance := performance a;
     memory := memory a |}.

(** [updateAgentStatus]: the save is attempted (and recorded in the
    trace); the call throws when the save does. *)
Definition updateAgentStatus (be : Backend) (agentId : string) (s : AgentStatus)
    (st : LoopState) : Outcome unit * LoopState :=
  (saveStatus be (length (statusPosts st)) agentId s,
   {| activeLoops := activeLoops st; agentStates := agentStates st;
      statusPosts := statusPosts st ++ [(agentId, s)] |}).

Definition clear_timer (agentId : string) (st : LoopState) : LoopState :=
  match activeLoops st !! agentId with
  | Some _ =>
      {| activeLoops := delete agentId (activeLoops st);
         agentStates := agentStates st; statusPosts := statusPosts st |}
  | None => st
  end.

Definition mark (agentId : string) (s : AgentStatus) (st : LoopState) : LoopState :=
  match agentStates st !! agentId with
  | Some agent =>
      {| activeLoops := activeLoops st;
         agentStates := <[agentId := with_status s agent]> (agentStates st);
         statusPosts := statusPosts st |}
  | None => st
  end.

(** [stopAgent] and [pauseAgent]: the timer and the tracked agent are
    updated before the status is saved, so a throwing save leaves them
    updated. *)
Definition stopAgent (be : Backend) (agentId : string) (st : LoopState)
    : Outcome unit * LoopState :=
  updateAgentStatus be agentId AgStopped (mark agentId AgStopped (clear_timer agentId st)).

Definition pauseAgent (be : Backend) (agentId : string) (st : LoopState)
    : Outcome unit * LoopState :=
  updateAgentStatus be agentId AgPaused (mark agentId AgPaused (clear_timer agentId st)).

(** [agent.config.decisionInterval || 30000] *)
Definition interval_of (agent : Agent) : Z :=
  if bool_decide (decisionInterval (config agent) = 0) then 30000
  else decisionInterval (config agent).

Definition arm (agentId : string) (agent : Agent) (st : LoopState) : LoopState :=
  {| activeLoops :=
       <[agentId := {| timer_agent := agent; timer_interval := interval_of agent |}]>
         (activeLoops st);
     agentStates := <[agentId := with_status AgActive agent]> (agentStates st);
     statusPosts := statusPosts st |}.

(** The catch branch of [startAgent]: it saves the [error] status and
    rethrows; when that save throws, its error is the one thrown. *)
Definition start_failed (be : Backend) (agentId : string) (e : string)
    (st : LoopState) : Outcome unit * LoopState :=
  match updateAgentStatus be agentId AgError st with
  | (Returned _, st') => (Thrown e, st')
  | (Thrown e', st') => (Thrown e', st')
  end.

(** [startAgent]: the body of the [try] in program order. *)
Definition startAgent (be : Backend) (agentId : string) (st : LoopState)
    : Outcome unit * LoopState :=
  match loadAgent be agentId with
  | Thrown e => start_failed be agentId e st
  | Returned None => start_failed be agentId ("Agent " +:+ agentId +:+ " not found") st
  | Returned (Some agent) =>
      match stopAgent be agentId st with
      | (Thrown e, st1) => start_failed be agentId e st1
      | (Returned _, st1) =>
          match updateAgentStatus be agentId AgActive (arm agentId agent st1) with
          | (Thrown e, st2) => start_failed be agentId e st2
          | (Returned _, st2) => (Returned (), st2)
          end
      end
  end.

Inductive CycleResult : Type :=
| RSuccess | RValidationFailed | RExecutionFailed.

Definition bump_performance (result : CycleResult) (p : Performance) : Performance :=
  {| totalPnL := totalPnL p; winRate := winRate p; trades := trades p;
     successfulDecisions :=
       match result with
       | RSuccess => successfulDecisions p + 1
       | _ => successfulDecisions p
       end;
     totalDecisions := totalDecisions p + 1 |}.

Definition with_performance (p : Performance) (a : Agent) : Agent :=
  {| agent_id := agent_id a; agent_name := agent_name a; agent_type := agent_type a;
     status := status a; config := config a; performance := p; memory := memory a |}.

(** [updatePerformance]: its backend post sits in a try/catch that only
    warns, so it never throws. *)
Definition updatePerformance (agentId : string) (result : CycleResult)
    (st : LoopState) : LoopState :=
  match agentStates st !! agentId with
  | None => st
  | Some agent =>
      {| activeLoops := activeLoops st;
         agentStates :=
           <[agentId := with_performance (bump_performance result (performance agent)) agent]>
             (agentStates st);
         statusPosts := statusPosts st |}
  end.

Definition errorCount (a : Agent) : Z :=
  totalDecisions (performance a) - successfulDecisions (performance a).

(** [handleDecisionError]: the [error] status is saved before the
    counter is looked at, so a throwing save ends the handler there. *)
Definition handleDecisionError (be : Backend) (agentId : string) (st : LoopState)
    : Outcome unit * LoopState :=
  match agentStates st !! agentId with
  | Some agent =>
      match updateAgentStatus be agentId AgError (mark agentId AgError st) with
      | (Thrown e, st1) => (Thrown e, st1)
      | (Returned _, st1) =>
          if bool_decide (10 < errorCount agent) then stopAgent be agentId st1
          else (Returned (), st1)
      end
  | None => (Returned (), st)
  end.

(** [executeDecisionCycle]: the body of the [try] in program order; any
    throw goes to [handleDecisionError], whose own throw is the cycle's. *)
Definition executeDecisionCycle (be : Backend) (inp : CycleInputs) (agent : Agent)
    (st : LoopState) : Outcome unit * LoopState :=
  match cy_decision inp with
  | Thrown _ => handleDecisionError be (agent_id agent) st
  | Returned decision =>
      if validateDecision decision (cy_portfolio inp) (config agent) then
        match cy_execution inp, cy_memory inp with
        | Returned _, Returned _ =>
            (Returned (), updatePerformance (agent_id agent) RSuccess st)
        | _, _ => handleDecisionError be (agent_id agent) st
        end
      else
        match cy_memory inp with
        | Returned _ =>
            (Returned (), updatePerformance (agent_id agent) RValidationFailed st)
        | Thrown _ => handleDecisionError be (agent_id agent) st
        end
  end.

(** Whether a cycle ends in the catch branch. *)
Definition cycle_fails (inp : CycleInputs) (agent : Agent) : bool :=
  match cy_decision inp with
  | Thrown _ => true
  | Returned decision =>
      if validateDecision decision (cy_portfolio inp) (config agent) then
        negb (is_returned (cy_execution inp) && is_returned (cy_memory inp))
      else negb (is_returned (cy_memory inp))
  end.

(** One firing of the agent's interval timer: the callback runs only
    while the timer is armed; nothing awaits its promise, so a cycle that
    throws just leaves the state it reached. *)
Definition tick (be : Backend) (inp : CycleInputs) (agentId : string)
    (st : LoopState) : LoopState :=
  match activeLoops st !! agentId with
  | Some tm => (executeDecisionCycle be inp (timer_agent tm) st).2
  | None => st
  end.

Definition ticks (be : Backend) (inps : list CycleInputs) (agentId : string)
    (st : LoopState) : LoopState :=
  fold_left (λ s inp, tick be inp agentId s) inps st.

(** [agent.status === 'active' || agent.auto_start] *)
Definition eligible (agent : BackendAgent) : bool :=
  bool_decide (ba_status agent = "active") || auto_start agent.

(** The loop of [startAllAgents]; a throw of [startAgent] leaves the
    [for] and lands in the enclosing catch, which only logs. *)
Fixpoint start_each (be : Backend) (agents : list BackendAgent) (st : LoopState) : LoopState :=
  match agents with
  | [] => st
  | agent :: rest =>
      if eligible agent then
        match startAgent be (ba_id agent) st with
        | (Returned _, st') => start_each be rest st'
        | (Thrown _, st') => st'
        end
      else start_each be rest st
  end.

Definition startAllAgents (be : Backend) (st : LoopState) : LoopState :=
  match listAgents be with
  | Returned agents => start_each be agents st
  | Thrown _ => st
  end.

(** ** The gateway pipeline as the specification words it

    For comparison with [callTool] only: the schema conformance of the
    specification's step 5 (type, required fields, numeric ranges, enum
    membership). The service has no counterpart of it. *)

Definition spec_type_ok (ty : ParamType) (v : JsValue) : bool :=
  match ty, v with
  | TString, JStr _ | TNumber, JNum _ | TBoolean, JBool _
  | TObject, JObj _ | TArray, JArr _ => true
  | _, _ => false
  end.

Definition spec_range_ok (val : Validation) (v : JsValue) : bool :=
  match v with
  | JNum q =>
      match v_min val with Some lo => Qle_bool lo q | None => true end
      && match v_max val with Some hi => Qle_bool q hi | None => true end
  | _ => true
  end.

Definition spec_enum_ok (val : Validation) (v : JsValue) : bool :=
  match v_enum val, v with
  | Some allowed, JStr s => includes allowed s
  | _, _ => true
  end.

Definition spec_param_ok (p : MCPParameter) (params : JsRecord) : bool :=
  match js_prop (p_name p) params with
  | JUndefined => negb (p_required p)
  | v =>
      spec_type_ok (p_type p) v
      && match p_validation p with
         | Some val => spec_range_ok val v && spec_enum_ok val v
         | None => true
         end
  end.

Definition spec_schema_ok (tool : MCPTool) (params : JsRecord) : bool :=
  forallb (λ p, spec_param_ok p params) (parameters tool).

(** The specification's running average: the incremental-mean update
    [newAvg = oldAvg + (value - oldAvg)/count], [count] being the number
    of values including the new one. *)
Definition spec_incremental_mean (oldAvg value count : float) : float :=
  (oldAvg + (value - oldAvg) / count)%float.

(** ** Runs of the gateway *)

Record Call : Type := {
  c_clock : CallClock;
  c_agentId : string;
  c_toolId : string;
  c_params : JsRecord;
  c_context : option JsRecord
}.

Definition do_call (svc : Services) (c : Call) (st : MCPState) : Outcome JsValue * MCPState :=
  callTool svc (c_clock c) (c_agentId c) (c_toolId c) (c_params c) (c_context c) st.

(** The state after a sequence of gateway calls, whatever their
    outcomes. *)
Definition run_calls (svc : Services) (calls : list Call) (st : MCPState) : MCPState :=
  fold_left (λ s c, (do_call svc c s).2) calls st.

(** The three call counters of a session, and whether a gateway step
    changed them for the session stored under [sid]. *)
Definition counters (s : MCPSession) : Z * Z * Z :=
  (sess_totalCalls s, successfulCalls s, failedCalls s).

Definition session_updated (st st' : MCPState) (sid : string) : Prop :=
  counters <$> jm_get sid (sessions st) ≠ counters <$> jm_get sid (sessions st').

(** The tool ids [executeTool] has a case for. *)
Definition implemented (toolId : string) : Prop :=
  toolId = "trading.place_order" ∨ toolId = "analysis.market_sentiment"
  ∨ toolId = "system.create_todo".

(** The frame of a state transformer on the service: every field but
    the ghost dispatch trace is kept. *)
Definition same_registers (st st' : MCPState) : Prop :=
  tools st' = tools st ∧ agentPermissions st' = agentPermissions st
  ∧ callLogs st' = callLogs st ∧ sessions st' = sessions st
  ∧ rateLimits st' = rateLimits st.

(** ** Runs of the session manager *)

Inductive SessionOp : Type :=
| Activate (agentId : string) (t_id t_start : Z)
| Deactivate (agentId : string) (now : nat → Z).

Definition apply_op (svc : Services) (op : SessionOp) (st : MCPState) : MCPState :=
  match op with
  | Activate agentId t_id t_start => (activateForAgent svc agentId t_id t_start st).2
  | Deactivate agentId now => deactivateForAgent agentId now st
  end.

Definition run_ops (svc : Services) (ops : list SessionOp) (st : MCPState) : MCPState :=
  fold_left (λ s op, apply_op svc op s) ops st.

(** An activation is guarded in a state when its agent has no Active
    session there; a run is guarded when each of its activations is, in
    the state it is applied to. The service itself has no such guard. *)
Definition op_guarded (op : SessionOp) (st : MCPState) : Prop :=
  match op with
  | Activate agentId _ _ => activeSessions agentId st = 0%nat
  | Deactivate _ _ => True
  end.

Fixpoint run_guarded (svc : Services) (ops : list SessionOp) (st : MCPState) : Prop :=
  match ops with
  | [] => True
  | op :: rest => op_guarded op st ∧ run_guarded svc rest (apply_op svc op st)
  end.

(** ** Fixtures for the concrete runs *)

(** All lazily loaded services are [null]; [getAgent] then finds no
    agent. *)
Definition null_services : Services :=
  {| getAgent := λ _, None; placeOrder := None; createTodoItem := None |}.

(** The persistence service knows every agent under its own id; the
    trading engine and the todo service are [null]. *)
Definition agents_only : Services :=
  {| getAgent := λ agentId, Some agentId; placeOrder := None; createTodoItem := None |}.

(** A call whose clock readings are all the instant [t]. *)
Definition at_instant (t : Z) (suffix : string) : CallClock :=
  {| t_start := t; t_callId := t; t_impl := t; t_logged := t; t_usage := t;
     t_lastUsed := t; random_suffix := suffix |}.

Definition sentiment_call (t : Z) (agentId : string) (params : JsRecord) : Call :=
  {| c_clock := at_instant t "k3j2h1g0f"; c_agentId := agentId;
     c_toolId := "analysis.market_sentiment"; c_params := params; c_context := None |}.

(** A permission set that grants nothing and blocks the sentiment tool
    (well-formed for [MCPAgentPermissions]; [loadPersistedData] installs
    whatever permission sets the stored snapshot holds). *)
Definition blocking_permissions (agentId : string) : MCPAgentPermissions :=
  {| perm_agentId := agentId;
     allowedTools := [];
     allowedCategories := [];
     restrictions :=
       {| maxCallsPerMinute := 60; maxCallsPerDay := 5000; requireApproval := [];
          blockedTools := ["analysis.market_sentiment"] |};
     audit := {| audit_enabled := true; logLevel := detailed; retentionDays := 30 |} |}.

Definition with_permissions (agentId : string) (perms : MCPAgentPermissions)
    (st : MCPState) : MCPState :=
  {| tools := tools st;
     agentPermissions := <[agentId := perms]> (agentPermissions st);
     callLogs := callLogs st; sessions := sessions st;
     rateLimits := rateLimits st; dispatched := dispatched st |}.

(** The service after [activateForAgent("agent-1")] at clock reading
    1000, with the persistence service present. *)
Definition activated_service : MCPState :=
  (activateForAgent agents_only "agent-1" 1000 1000 initial_service).2.

(** A sentiment call that starts at [start] and whose later clock
    readings are all [finish]. *)
Definition timed_sentiment_call (start finish : Z) (agentId : string) : Call :=
  {| c_clock :=
       {| t_start := start; t_callId := start; t_impl := finish; t_logged := finish;
          t_usage := finish; t_lastUsed := finish; random_suffix := "k3j2h1g0f" |};
     c_agentId := agentId;
     c_toolId := "analysis.market_sentiment";
     c_params := [("symbol", JStr "BTC/USD")];
     c_context := None |}.

Definition sentiment_usage (st : MCPState) : option ToolUsage :=
  usage <$> jm_get "analysis.market_sentiment" (tools st).

(** The specification's example for the validator: cash 1000 and
    [maxRiskPerTrade] 0.05, and a decision on an allowed symbol with an
    action, a rationale, a quantity and a price. *)
Definition example_config : AgentConfig :=
  {| decisionInterval := 30000; maxRiskPerTrade := 0.05;
     symbols := ["BTC/USD"; "ETH/USD"]; strategy := JObj [] |}.

Definition example_portfolio : Portfolio :=
  {| totalValue := 1000; cash := 1000; positions := []; pnl := 0 |}.

Definition example_decision (act : string) (qty unit_price : float) : AIDecision :=
  {| action := Some act; reasoning := Some "momentum breakout";
     symbol := Some "BTC/USD"; quantity := Some qty; price := Some unit_price;
     confidence := Some 0.7%float |}.

(** An agent as the backend stores it before its first decision, the
    loop before any agent was started, and a backend that knows the single
    agent "agent-1" but lists a second id, "ghost", that it cannot load;
    both are listed with status 'active'. *)
Definition fresh_agent (agentId : string) : Agent :=
  {| agent_id := agentId; agent_name := "Momentum One"; agent_type := "momentum";
     status := AgStopped; config := example_config;
     performance :=
       {| totalPnL := 0; winRate := 0; trades := 0; successfulDecisions := 0;
          totalDecisions := 0 |};
     memory := JObj [] |}.

Definition empty_loop : LoopState :=
  {| activeLoops := ∅; agentStates := ∅; statusPosts := [] |}.

Definition listed (agentId : string) : BackendAgent :=
  {| ba_id := agentId; ba_status := "active"; auto_start := false |}.

Definition example_backend : Backend :=
  {| loadAgent := λ agentId,
       if bool_decide (agentId = "agent-1") then Returned (Some (fresh_agent agentId))
       else Returned None;
     listAgents := Returned [listed "ghost"; listed "agent-1"];
     saveStatus := λ _ _ _, Returned () |}.

(** The same backend when the status POST fails and the browser storage
    is full, for every save and for the [n]-th save only. *)
Definition storage_full : Outcome unit := Thrown "The quota has been exceeded.".

Definition unsaving_backend : Backend :=
  {| loadAgent := loadAgent example_backend; listAgents := listAgents example_backend;
     saveStatus := λ _ _ _, storage_full |}.

Definition failing_save (n : nat) : Backend :=
  {| loadAgent := loadAgent example_backend; listAgents := listAgents example_backend;
     saveStatus := λ k _ _, if bool_decide (k = n) then storage_full else Returned () |}.

(** A cycle in which the LLM call throws, and one in which the LLM
    proposes a symbol outside the allowed set (a rejected decision). *)
Definition failing_cycle : CycleInputs :=
  {| cy_portfolio := example_portfolio; cy_decision := Thrown "LLM request failed";
     cy_execution := Returned (); cy_memory := Returned () |}.

Definition rejected_cycle : CycleInputs :=
  {| cy_portfolio := example_portfolio;
     cy_decision :=
       Returned {| action := Some "hold"; reasoning := Some "no signal";
                   symbol := Some "DOGE/USD"; quantity := None; price := None;
                   confidence := None |};
     cy_execution := Returned (); cy_memory := Returned () |}.

(** "agent-1" started on the empty loop, and the same after [n]
    rejected decisions. *)
Definition started_loop : LoopState :=
  (startAgent example_backend "agent-1" empty_loop).2.

Definition after_rejections (n : nat) : LoopState :=
  ticks example_backend (replicate n rejected_cycle) "agent-1" started_loop.

Definition rejected_times (n : Z) (a : Agent) : Agent :=
  with_performance
    {| totalPnL := 0; winRate := 0; trades := 0; successfulDecisions := 0;
       totalDecisions := n |}
    (with_status AgActive a).

(** ** Further operations of MCPIntegrationService *)

(** [getCallLogs(agentId?)]: the filter applies when the argument is
    truthy, so an absent or empty agent id gives the whole log. *)
Definition getCallLogs (agentId : option string) (st : MCPState) : list MCPCallLog :=
  if str_truthy agentId then
    filter (λ l, log_agentId l = default "" agentId) (callLogs st)
  else callLogs st.

(** The object [getAgentStats] returns. *)
Record AgentStats : Type := {
  stats_totalCalls : Z;
  stats_successfulCalls : Z;
  stats_failedCalls : Z;
  stats_successRate : Q;
  stats_avgResponseTime : Q;
  stats_totalSessions : Z;
  stats_activeSessions : Z;
  stats_availableTools : Z;
  stats_permissions : option MCPAgentPermissions;
  recentCalls : list MCPCallLog
}.

(** [calls.reduce((sum, c) => sum + c.duration, 0)] *)
Definition sum_durations (calls : list MCPCallLog) : Z :=
  fold_left (λ sum c, sum + duration c) calls 0.

(** [getAgentStats]; the two ratios are kept as exact quotients of the
    integer counts, of which the doubles the code computes are the
    roundings. *)
Definition getAgentStats (agentId : string) (st : MCPState) : AgentStats :=
  let calls := filter (λ l, log_agentId l = agentId) (callLogs st) in
  let succeeded := filter (λ c, success c = true) calls in
  let n := Z.of_nat (length calls) in
  {| stats_totalCalls := n;
     stats_successfulCalls := Z.of_nat (length succeeded);
     stats_failedCalls := Z.of_nat (length (filter (λ c, success c = false) calls));
     stats_successRate :=
       if bool_decide (0 < n) then (inject_Z (Z.of_nat (length succeeded)) / inject_Z n)%Q
       else 0%Q;
     stats_avgResponseTime :=
       if bool_decide (0 < n) then (inject_Z (sum_durations calls) / inject_Z n)%Q
       else 0%Q;
     stats_totalSessions := Z.of_nat (length (sessions_of agentId st));
     stats_activeSessions := Z.of_nat (activeSessions agentId st);
     stats_availableTools := Z.of_nat (length (getAvailableTools agentId st));
     stats_permissions := agentPermissions st !! agentId;
     recentCalls := drop (length calls - 10) calls |}.

(** [activateForAllAgents] on the records [getAllAgents()] lists. Of a
    record the loop reads [id] and, for its log line, [config.name]; that
    second read throws when the record has no [config] object, and
    [NameThrows] then carries the string form of what is thrown. The two
    readings are the clock readings of the agent's activation. *)
Inductive NameRead : Type :=
| NameIs (name : string)
| NameThrows (error_text : string).

Record ListedAgent : Type := {
  la_id : string;
  la_name : NameRead;
  la_t_id : Z;
  la_t_start : Z
}.

Definition name_throws (agent : ListedAgent) : bool :=
  match la_name agent with NameIs _ => false | NameThrows _ => true end.

(** The entries of the [results] array, which is the payload of the
    [mcpActivatedForAll] event. *)
Record ActivationResult : Type := {
  res_agentId : string;
  res_success : bool;
  res_errors : list string
}.

(** The loop body pushes the result of the activation and then writes
    its log line; when that throws, the catch branch pushes a second
    result for the same agent. *)
Fixpoint activate_each (svc : Services) (agents : list ListedAgent)
    (st : MCPState) : list ActivationResult * MCPState :=
  match agents with
  | [] => ([], st)
  | agent :: rest =>
      let '((ok, errors), st1) :=
        activateForAgent svc (la_id agent) (la_t_id agent) (la_t_start agent) st in
      let pushed :=
        {| res_agentId := la_id agent; res_success := ok; res_errors := errors |} in
      let caught :=
        match la_name agent with
        | NameIs _ => []
        | NameThrows e =>
            [{| res_agentId := la_id agent; res_success := false;
                res_errors := ["Critical error: " +:+ e] |}]
        end in
      let '(results, st2) := activate_each svc rest st1 in
      (pushed :: caught ++ results, st2)
  end.


Definition successCount (results : list ActivationResult) : nat :=
  length (filter (λ r, res_success r = true) results).

(** Repeated [updateToolUsage] for one tool: each entry is the success
    flag, the duration and the clock reading of one call. *)
Definition record_usages (toolId : string) (calls : list (bool * Z * Z))
    (st : MCPState) : MCPState :=
  fold_left (λ s c, updateToolUsage toolId c.1.1 c.1.2 c.2 s) calls st.


(** ** Further operations of AgentDecisionLoop *)

(** [stopAllAgents]: [activeAgents] is [getActiveAgents()], the keys of
    [activeLoops] in the insertion order of the JavaScript [Map], which the
    [gmap] does not record. The [for] loop awaits [stopAgent] outside any
    [try], so the first stop that throws ends it. *)
Fixpoint stopAllAgents (be : Backend) (activeAgents : list string) (st : LoopState)
    : Outcome unit * LoopState :=
  match activeAgents with
  | [] => (Returned (), st)
  | agentId :: rest =>
      match stopAgent be agentId st with
      | (Returned _, st') => stopAllAgents be rest st'
      | (Thrown e, st') => (Thrown e, st')
      end
  end.

(** What the timer callbacks may do to a tracked agent: its identity and
    configuration stay, its counters do not decrease, and its status stays
    or becomes Error or Stopped. *)
Definition evolves (a a' : Agent) : Prop :=
  agent_id a' = agent_id a ∧ config a' = config a
  ∧ totalDecisions (performance a) ≤ totalDecisions (performance a')
  ∧ successfulDecisions (performance a) ≤ successfulDecisions (performance a')
  ∧ errorCount a ≤ errorCount a'
  ∧ (status a' = status a ∨ status a' = AgError ∨ status a' = AgStopped).

Definition loop_evolves (st st' : LoopState) : Prop :=
  (∀ id a, agentStates st !! id = Some a →
     ∃ a', agentStates st' !! id = Some a' ∧ evolves a a')
  ∧ (∀ id, agentStates st !! id = None → agentStates st' !! id = None)
  ∧ (∀ id, activeLoops st' !! id = None ∨ activeLoops st' !! id = activeLoops st !! id).

(** Timers of several agents firing in some order: each event is the
    agent whose timer fires and what its cycle obtains. *)
Definition fire (be : Backend) (events : list (string * CycleInputs)) (st : LoopState)
    : LoopState :=
  fold_left (λ s e, tick be e.2 e.1 s) events st.

(** A session that ended in error, an order engine that accepts every
    order, and a cycle whose decision is executed, for the examples. *)
Definition errored_session (agentId : string) : MCPSession :=
  {| sess_id := "session_" +:+ agentId +:+ "_500"; sess_agentId := agentId;
     startTime := 500; endTime := Some 600; sess_totalCalls := 0;
     successfulCalls := 0; failedCalls := 0; sess_tools := []; sess_context := [];
     sess_status := SessError |}.

Definition echo_engine : Services :=
  {| getAgent := λ agentId, Some agentId;
     placeOrder := Some (λ args, Returned (JObj [("id", JStr "order-1"); ("args", JArr args)]));
     createTodoItem := None |}.

(** A registered, enabled tool that [executeTool] has no case for, a
    service that has it besides the default tools, and a buy decision that
    names no price. *)
Definition export_tool : MCPTool :=
  {| tool_id := "data.export_history";
     tool_name := "Export History";
     tool_description := "Export the trade history";
     category := data;
     version := "1.0.0";
     permissions := ["data.read"];
     parameters := [];
     enabled := true;
     usage := fresh_usage |}.

Definition service_with_export : MCPState :=
  set_tools (jm_set "data.export_history" export_tool) activated_service.

Definition unpriced_buy : AIDecision :=
  {| action := Some "buy"; reasoning := Some "market order";
     symbol := Some "BTC/USD"; quantity := Some 1000%float; price := None;
     confidence := None |}.

(** A backend on which every listed agent can be loaded, and a
    persistence service that knows "agent-1" only. *)
Definition healthy_backend : Backend :=
  {| loadAgent := λ agentId, Returned (Some (fresh_agent agentId));
     listAgents := Returned [listed "agent-1"; listed "agent-2"];
     saveStatus := λ _ _ _, Returned () |}.

(** The same backend with browser storage full from the [n]-th status
    save on, and a record of [getAllAgents()] that has a [config] with
    the given name. *)
Definition failing_from (n : nat) : Backend :=
  {| loadAgent := loadAgent healthy_backend; listAgents := listAgents healthy_backend;
     saveStatus := λ k _ _, if bool_decide (n ≤ k)%nat then storage_full else Returned () |}.

Definition named_agent (agentId name : string) (t : Z) : ListedAgent :=
  {| la_id := agentId; la_name := NameIs name; la_t_id := t; la_t_start := t |}.

Definition bare_agent (agentId : string) (t : Z) : ListedAgent :=
  {| la_id := agentId;
     la_name := NameThrows "TypeError: Cannot read properties of undefined (reading 'name')";
     la_t_id := t; la_t_start := t |}.

Definition one_agent_service : Services :=
  {| getAgent := λ agentId, if bool_decide (agentId = "agent-1") then Some agentId else None;
     placeOrder := None; createTodoItem := None |}.

Definition executed_cycle : CycleInputs :=
  {| cy_portfolio := example_portfolio;
     cy_decision := Returned (example_decision "buy" 2 20);
     cy_execution := Returned (); cy_memory := Returned () |}.

(** * Properties *)

(** ** Insertion-ordered maps *)

Section JsMapFacts.
Context {V : Type}.
Implicit Types (m : JsMap V) (k : string) (v : V).

Lemma jm_get_set_eq k v m : jm_get k (jm_set k v m) = Some v.
Proof.
  induction m as [|[k' v'] m IH]; simpl.
  - by rewrite bool_decide_true.
  - case_bool_decide as Hk; simpl.
    + by rewrite bool_decide_true.
    + by rewrite bool_decide_false.
Qed.

Lemma jm_get_set_ne k k' v m : k ≠ k' → jm_get k' (jm_set k v m) = jm_get k' m.
Proof.
  intros Hne. induction m as [|[k0 v0] m IH]; simpl.
  - by rewrite bool_decide_false.
  - case_bool_decide as Hk; simpl.
    + subst k0. by rewrite !bool_decide_false.
    + by rewrite IH.
Qed.

Lemma jm_set_fresh k v m : jm_get k m = None → jm_set k v m = m ++ [(k, v)].
Proof.
  induction m as [|[k' v'] m IH]; simpl; [done|].
  case_bool_decide; [done|]. intros Hm. by rewrite IH.
Qed.

(** Setting a key replaces at most one stored value: the values are
    those before with one of them swapped for [v], or with [v] added at
    the end. *)
Lemma jm_values_set k v m :
  (∃ vs1 old vs2, jm_values m = vs1 ++ old :: vs2 ∧ jm_get k m = Some old
                  ∧ jm_values (jm_set k v m) = vs1 ++ v :: vs2)
  ∨ (jm_get k m = None ∧ jm_values (jm_set k v m) = jm_values m ++ [v]).
Proof.
  unfold jm_values. induction m as [|[k' v'] m IH]; cbn [jm_set jm_get].
  - by right.
  - case_bool_decide as Hk; rewrite !fmap_cons; cbn [snd].
    + left. by exists [], v', (m.*2).
    + destruct IH as [(vs1 & old & vs2 & Hm & Hget & Hset)|[Hget Hset]].
      * left. exists (v' :: vs1), old, vs2. rewrite Hset, Hm. done.
      * right. by rewrite Hset.
Qed.
End JsMapFacts.

(** ** The gateway: what a call touches *)

Section Gateway.
Context (svc : Services).
Implicit Types (st : MCPState) (clk : CallClock) (params : JsRecord)
  (context : option JsRecord) (agentId toolId : string).

Lemma executeTool_implemented tool params ctx t st :
  implemented (tool_id tool) →
  (executeTool svc tool params ctx t st).2 = record_dispatch (tool_id tool) params st.
Proof.
  unfold executeTool, executeTradeOrder, analyzeMarketSentiment, createTodo.
  intros [Hid|[Hid|Hid]]; rewrite Hid; simpl; repeat case_match; done.
Qed.

Lemma executeTool_unimplemented tool params ctx t st :
  ¬ implemented (tool_id tool) →
  executeTool svc tool params ctx t st
  = (Thrown ("Tool not implemented: " +:+ tool_id tool), st).
Proof.
  unfold executeTool, implemented. intros Hno.
  repeat case_bool_decide; tauto.
Qed.

Lemma implemented_dec toolId : implemented toolId ∨ ¬ implemented toolId.
Proof.
  unfold implemented.
  destruct (decide (toolId = "trading.place_order")); [tauto|].
  destruct (decide (toolId = "analysis.market_sentiment")); [tauto|].
  destruct (decide (toolId = "system.create_todo")); tauto.
Qed.

Lemma executeTool_registers tool params ctx t st :
  same_registers st (executeTool svc tool params ctx t st).2.
Proof.
  destruct (implemented_dec (tool_id tool)) as [Hi|Hn].
  - by rewrite executeTool_implemented.
  - by rewrite executeTool_unimplemented.
Qed.

Lemma checked_dispatch_registers clk agentId toolId params context st :
  same_registers st (checked_dispatch svc clk agentId toolId params context st).2.
Proof.
  unfold checked_dispatch. repeat case_match; try done.
  apply executeTool_registers.
Qed.

(** The outcome and the dispatch trace of a call by a registered agent
    to an enabled tool. *)
Lemma checked_dispatch_enabled clk agentId toolId params context st perms tool :
  agentPermissions st !! agentId = Some perms →
  jm_get toolId (tools st) = Some tool →
  enabled tool = true →
  checked_dispatch svc clk agentId toolId params context st
  = executeTool svc tool params (spread_context agentId context) (t_impl clk) st.
Proof. unfold checked_dispatch. by intros -> -> ->. Qed.

Lemma callTool_outcome clk agentId toolId params context st :
  (callTool svc clk agentId toolId params context st).1
  = (checked_dispatch svc clk agentId toolId params context st).1.
Proof. unfold callTool. by destruct checked_dispatch. Qed.

Lemma updateToolUsage_frame toolId ok dur now st :
  let st' := updateToolUsage toolId ok dur now st in
  agentPermissions st' = agentPermissions st ∧ callLogs st' = callLogs st
  ∧ sessions st' = sessions st ∧ rateLimits st' = rateLimits st
  ∧ dispatched st' = dispatched st.
Proof. unfold updateToolUsage. by case_match. Qed.

Lemma callTool_permissions clk agentId toolId params context st :
  agentPermissions (callTool svc clk agentId toolId params context st).2
  = agentPermissions st.
Proof.
  unfold callTool.
  pose proof (checked_dispatch_registers clk agentId toolId params context st) as Hd.
  destruct checked_dispatch as [out st1]. simpl in *.
  destruct (updateToolUsage_frame toolId (is_returned out)
              (t_usage clk - t_start clk) (t_lastUsed clk)
              (logCall (make_callLog clk agentId toolId params context out st1) st1))
    as (-> & _). simpl. apply Hd.
Qed.

Lemma callTool_sessions clk agentId toolId params context st :
  sessions (callTool svc clk agentId toolId params context st).2 = sessions st.
Proof.
  unfold callTool.
  pose proof (checked_dispatch_registers clk agentId toolId params context st) as Hd.
  destruct checked_dispatch as [out st1]. simpl in *.
  destruct (updateToolUsage_frame toolId (is_returned out)
              (t_usage clk - t_start clk) (t_lastUsed clk)
              (logCall (make_callLog clk agentId toolId params context out st1) st1))
    as (_ & _ & -> & _). simpl. apply Hd.
Qed.

Lemma callTool_rateLimits clk agentId toolId params context st :
  rateLimits (callTool svc clk agentId toolId params context st).2 = rateLimits st.
Proof.
  unfold callTool.
  pose proof (checked_dispatch_registers clk agentId toolId params context st) as Hd.
  destruct checked_dispatch as [out st1]. simpl in *.
  destruct (updateToolUsage_frame toolId (is_returned out)
              (t_usage clk - t_start clk) (t_lastUsed clk)
              (logCall (make_callLog clk agentId toolId params context out st1) st1))
    as (_ & _ & _ & -> & _). simpl. apply Hd.
Qed.

Lemma callTool_dispatched clk agentId toolId params context st :
  dispatched (callTool svc clk agentId toolId params context st).2
  = dispatched (checked_dispatch svc clk agentId toolId params context st).2.
Proof.
  unfold callTool. destruct checked_dispatch as [out st1]. simpl.
  by destruct (updateToolUsage_frame toolId (is_returned out)
              (t_usage clk - t_start clk) (t_lastUsed clk)
              (logCall (make_callLog clk agentId toolId params context out st1) st1))
    as (_ & _ & _ & _ & ->).
Qed.

(** The trimmed log ends with the record just pushed, preceded by a
    suffix of the earlier log (all of it below the cap). *)
Lemma keep_last_1000_snoc (logs : list MCPCallLog) (x : MCPCallLog) :
  ∃ kept, keep_last_1000 (logs ++ [x]) = kept ++ [x]
          ∧ kept `suffix_of` logs
          ∧ ((length logs < 1000)%nat → kept = logs).
Proof.
  unfold keep_last_1000. rewrite length_app. simpl. case_bool_decide as Hlen.
  - exists (drop (length logs + 1 - 1000) logs).
    rewrite drop_app_le by lia. split; [done|]. split; [apply suffix_drop|lia].
  - by exists logs.
Qed.

Lemma callTool_callLogs clk agentId toolId params context st :
  let r := checked_dispatch svc clk agentId toolId params context st in
  callLogs (callTool svc clk agentId toolId params context st).2
  = keep_last_1000
      (callLogs st ++ [make_callLog clk agentId toolId params context r.1 r.2]).
Proof.
  unfold callTool. simpl.
  pose proof (checked_dispatch_registers clk agentId toolId params context st) as Hd.
  destruct checked_dispatch as [out st1]. simpl in *.
  destruct (updateToolUsage_frame toolId (is_returned out)
              (t_usage clk - t_start clk) (t_lastUsed clk)
              (logCall (make_callLog clk agentId toolId params context out st1) st1))
    as (_ & -> & _).
  destruct Hd as (_ & _ & Hlogs & _). unfold logCall. simpl.
  by rewrite Hlogs.
Qed.

Lemma callTool_tools clk agentId toolId params context st :
  let ok := is_returned (checked_dispatch svc clk agentId toolId params context st).1 in
  tools (callTool svc clk agentId toolId params context st).2
  = match jm_get toolId (tools st) with
    | Some tool =>
        jm_set toolId
          (with_usage
             (bump_usage ok (t_usage clk - t_start clk) (t_lastUsed clk) (usage tool)) tool)
          (tools st)
    | None => tools st
    end.
Proof.
  unfold callTool. simpl.
  pose proof (checked_dispatch_registers clk agentId toolId params context st) as Hd.
  destruct checked_dispatch as [out st1]. simpl in *.
  destruct Hd as (Htools & _). unfold updateToolUsage, logCall. simpl.
  rewrite Htools. destruct (jm_get toolId (tools st)); simpl; by rewrite Htools.
Qed.

(** A registered tool stays registered under its key through a call,
    with its definition unchanged apart from the usage statistics. *)
Lemma callTool_tool_kept clk agentId toolId params context st k tool :
  jm_get k (tools st) = Some tool →
  ∃ u, jm_get k (tools (callTool svc clk agentId toolId params context st).2)
       = Some (with_usage u tool).
Proof.
  intros Hk. rewrite callTool_tools. simpl.
  destruct (decide (toolId = k)) as [->|Hne].
  - rewrite Hk, jm_get_set_eq. eauto.
  - exists (usage tool). destruct (jm_get toolId (tools st)).
    + rewrite jm_get_set_ne by done. rewrite Hk. by destruct tool.
    + rewrite Hk. by destruct tool.
Qed.

Lemma run_calls_snoc calls c st :
  run_calls svc (calls ++ [c]) st = (do_call svc c (run_calls svc calls st)).2.
Proof. unfold run_calls. by rewrite fold_left_app. Qed.

Lemma run_calls_permissions calls st :
  agentPermissions (run_calls svc calls st) = agentPermissions st.
Proof.
  induction calls as [|c calls IH] using rev_ind; [done|].
  rewrite run_calls_snoc. unfold do_call. by rewrite callTool_permissions.
Qed.

Lemma run_calls_rateLimits calls st :
  rateLimits (run_calls svc calls st) = rateLimits st.
Proof.
  induction calls as [|c calls IH] using rev_ind; [done|].
  rewrite run_calls_snoc. unfold do_call. by rewrite callTool_rateLimits.
Qed.

Lemma run_calls_tool_kept calls st k tool :
  jm_get k (tools st) = Some tool →
  ∃ u, jm_get k (tools (run_calls svc calls st)) = Some (with_usage u tool).
Proof.
  intros Hk. induction calls as [|c calls IH] using rev_ind.
  - exists (usage tool). simpl. rewrite Hk. by destruct tool.
  - destruct IH as [u Hu]. rewrite run_calls_snoc. unfold do_call.
    destruct (callTool_tool_kept (c_clock c) (c_agentId c) (c_toolId c)
                (c_params c) (c_context c) _ _ _ Hu) as [u' Hu'].
    exists u'. by rewrite Hu'.
Qed.

(** The outcome of a tool implementation depends on the tool only
    through its id, and not on the service state. *)
Lemma executeTool_outcome_by_id tool tool' params ctx t st st' :
  tool_id tool = tool_id tool' →
  (executeTool svc tool params ctx t st).1 = (executeTool svc tool' params ctx t st').1.
Proof.
  unfold executeTool, executeTradeOrder, analyzeMarketSentiment, createTodo.
  intros <-. repeat case_bool_decide; simpl; repeat case_match; simplify_eq; done.
Qed.

Lemma sentiment_always_returns tool params ctx t st :
  tool_id tool = "analysis.market_sentiment" →
  is_returned (executeTool svc tool params ctx t st).1 = true.
Proof. unfold executeTool. by intros ->. Qed.

(** The permission set of the calling agent matters to a call only by
    being there: replacing it by any other leaves the outcome and the
    dispatch trace of the call the same. *)
Lemma callTool_any_permissions clk agentId toolId params context st perms perms' :
  let r := callTool svc clk agentId toolId params context (with_permissions agentId perms st) in
  let r' := callTool svc clk agentId toolId params context (with_permissions agentId perms' st) in
  r.1 = r'.1 ∧ dispatched r.2 = dispatched r'.2.
Proof.
  simpl. rewrite !callTool_outcome, !callTool_dispatched.
  unfold checked_dispatch. simpl. rewrite !lookup_insert_eq.
  destruct (jm_get toolId (tools st)) as [tool|]; [|done].
  destruct (enabled tool); [|done].
  split; [by apply executeTool_outcome_by_id|].
  destruct (implemented_dec (tool_id tool)) as [Hi|Hn].
  - by rewrite !executeTool_implemented.
  - by rewrite !executeTool_unimplemented.
Qed.

(** C2 (amended): the gateway applies no rate limit. Whatever the
    agent's [maxCallsPerMinute] is, and after any sequence of earlier
    gateway calls (so also after that many calls of the agent inside one
    window), a call by a registered agent to an enabled tool gets the
    outcome of the tool's implementation, is dispatched when the tool has
    one, and leaves the [rateLimits] table as it was at the start. *)
Theorem C2_no_rate_limit (N : Z) (calls : list Call) (c : Call) st perms tool :
  agentPermissions st !! c_agentId c = Some perms →
  maxCallsPerMinute (restrictions perms) = N →
  jm_get (c_toolId c) (tools st) = Some tool →
  enabled tool = true →
  let st' := run_calls svc calls st in
  let r := do_call svc c st' in
  r.1 = (executeTool svc tool (c_params c)
           (spread_context (c_agentId c) (c_context c)) (t_impl (c_clock c)) st').1
  ∧ (implemented (tool_id tool) →
     dispatched r.2 = dispatched st' ++ [(tool_id tool, c_params c)])
  ∧ rateLimits r.2 = rateLimits st.
Proof.
  intros Hperms _ Htool Hen st' r.
  destruct (run_calls_tool_kept calls st _ _ Htool) as [u Hu]. fold st' in Hu.
  assert (Hp : agentPermissions st' !! c_agentId c = Some perms)
    by (unfold st'; by rewrite run_calls_permissions).
  assert (Hd : checked_dispatch svc (c_clock c) (c_agentId c) (c_toolId c)
                 (c_params c) (c_context c) st'
               = executeTool svc (with_usage u tool) (c_params c)
                   (spread_context (c_agentId c) (c_context c)) (t_impl (c_clock c)) st')
    by (eapply checked_dispatch_enabled; eauto).
  unfold r, do_call. repeat split.
  - rewrite callTool_outcome, Hd. by apply executeTool_outcome_by_id.
  - intros Himpl. rewrite callTool_dispatched, Hd.
    by rewrite executeTool_implemented.
  - rewrite callTool_rateLimits. apply run_calls_rateLimits.
Qed.

(** C3 (amended): the gateway does not validate parameters. For every
    parameter record, conforming to the tool's schema or not, a call by a
    registered agent to an enabled tool that has an implementation is
    dispatched to it with the parameters as given, exactly once, and the
    call's outcome is the implementation's. *)
Theorem C3_parameters_reach_dispatch_unchecked clk agentId toolId params context
    st perms tool :
  agentPermissions st !! agentId = Some perms →
  jm_get toolId (tools st) = Some tool →
  enabled tool = true →
  implemented (tool_id tool) →
  let r := callTool svc clk agentId toolId params context st in
  r.1 = (executeTool svc tool params (spread_context agentId context) (t_impl clk) st).1
  ∧ dispatched r.2 = dispatched st ++ [(tool_id tool, params)].
Proof.
  intros Hperms Htool Hen Himpl r. unfold r.
  rewrite callTool_outcome, callTool_dispatched.
  rewrite (checked_dispatch_enabled _ _ _ _ _ _ _ _ Hperms Htool Hen).
  by rewrite executeTool_implemented.
Qed.

(** C5 (amended): every gateway call, returning or throwing, appends
    exactly one call record (the log then keeps its last 1000 entries, so
    the record follows a suffix of the earlier log, all of it while that
    had fewer than 1000 entries), adds exactly 1 to [usage.totalCalls] of
    the tool stored under [toolId] when there is one and changes no tool
    otherwise, leaves every other tool as it was, and leaves every session
    as it was: no session counter is updated. *)
Theorem C5_effects_of_a_call clk agentId toolId params context st :
  let r := callTool svc clk agentId toolId params context st in
  (∃ record kept,
      callLogs r.2 = kept ++ [record]
      ∧ callLogs r.2 = keep_last_1000 (callLogs st ++ [record])
      ∧ kept `suffix_of` callLogs st
      ∧ ((length (callLogs st) < 1000)%nat → kept = callLogs st)
      ∧ log_agentId record = agentId ∧ log_toolId record = toolId
      ∧ log_parameters record = params ∧ success record = is_returned r.1)
  ∧ (∀ tool, jm_get toolId (tools st) = Some tool →
       ∃ tool', jm_get toolId (tools r.2) = Some tool'
                ∧ totalCalls (usage tool') = totalCalls (usage tool) + 1)
  ∧ (jm_get toolId (tools st) = None → tools r.2 = tools st)
  ∧ (∀ other, other ≠ toolId → jm_get other (tools r.2) = jm_get other (tools st))
  ∧ sessions r.2 = sessions st.
Proof.
  intros r. unfold r. repeat split.
  - rewrite callTool_callLogs. simpl.
    destruct (keep_last_1000_snoc (callLogs st)
                (make_callLog clk agentId toolId params context
                   (checked_dispatch svc clk agentId toolId params context st).1
                   (checked_dispatch svc clk agentId toolId params context st).2))
      as (kept & Hkept & Hsuffix & Hshort).
    eexists _, kept. split; [exact Hkept|]. split; [done|].
    split; [done|]. split; [done|]. simpl.
    by rewrite callTool_outcome.
  - intros tool Htool. rewrite callTool_tools, Htool. simpl.
    rewrite jm_get_set_eq. by eexists.
  - intros Hnone. by rewrite callTool_tools, Hnone.
  - intros other Hne. rewrite callTool_tools. simpl.
    destruct (jm_get toolId (tools st)); [|done].
    by rewrite jm_get_set_ne.
  - apply callTool_sessions.
Qed.

End Gateway.

(** ** The gateway on concrete runs *)

(** C1: a tool the agent's permission set blocks (and grants neither by
    id nor by category) is left out by [getAvailableTools], yet [callTool]
    on it returns the tool's answer and the implementation is entered:
    [callTool] only checks that the agent has a permission set. *)
Theorem C1_blocked_tool_is_dispatched :
  let perms := blocking_permissions "agent-1" in
  let st := with_permissions "agent-1" perms initial_service in
  let params := [("symbol", JStr "BTC/USD")] in
  let r := do_call null_services (sentiment_call 1000 "agent-1" params) st in
  agentPermissions st !! "agent-1" = Some perms
  ∧ jm_get "analysis.market_sentiment" (tools st) = Some market_sentiment_tool
  ∧ enabled market_sentiment_tool = true
  ∧ permits perms market_sentiment_tool = false
  ∧ getAvailableTools "agent-1" st = []
  ∧ dispatched st = []
  ∧ is_returned r.1 = true
  ∧ dispatched r.2 = [("analysis.market_sentiment", params)].
Proof. vm_compute. repeat split. Qed.

(** C2, as stated, fails: with [maxCallsPerMinute = 60] and 60 calls of
    the agent already made at one instant, the 61st call at that instant
    returns and is dispatched. *)
Lemma C2_counterexample_call_61 :
  let c := sentiment_call 1000 "agent-1" [("symbol", JStr "BTC/USD")] in
  let st60 := run_calls agents_only (replicate 60 c) activated_service in
  let r := do_call agents_only c st60 in
  (maxCallsPerMinute ∘ restrictions <$> agentPermissions st60 !! "agent-1") = Some 60
  ∧ length (filter (λ l, log_agentId l = "agent-1" ∧ timestamp l = 1000) (callLogs st60))
    = 60%nat
  ∧ length (dispatched st60) = 60%nat
  ∧ is_returned r.1 = true
  ∧ length (dispatched r.2) = 61%nat.
Proof. vm_compute. repeat split. Qed.

Lemma C2_no_rate_limit_witness :
  let c := sentiment_call 1000 "agent-1" [("symbol", JStr "BTC/USD")] in
  let st' := run_calls agents_only (replicate 60 c) activated_service in
  let r := do_call agents_only c st' in
  r.1 = (executeTool agents_only market_sentiment_tool (c_params c)
           (spread_context (c_agentId c) (c_context c)) (t_impl (c_clock c)) st').1
  ∧ (implemented (tool_id market_sentiment_tool) →
     dispatched r.2 = dispatched st' ++ [(tool_id market_sentiment_tool, c_params c)])
  ∧ rateLimits r.2 = rateLimits activated_service.
Proof.
  intros c.
  apply (C2_no_rate_limit agents_only 60 (replicate 60 c) c activated_service
           (createAgentPermissions "agent-1" initial_service) market_sentiment_tool);
    vm_compute; reflexivity.
Defined.

(** C3, as stated, fails: a sentiment call without its required
    [symbol] parameter returns and enters the implementation. *)
Lemma C3_counterexample_missing_required :
  let r := do_call agents_only (sentiment_call 1000 "agent-1" []) activated_service in
  jm_get "analysis.market_sentiment" (tools activated_service) = Some market_sentiment_tool
  ∧ spec_schema_ok market_sentiment_tool [] = false
  ∧ dispatched activated_service = []
  ∧ is_returned r.1 = true
  ∧ dispatched r.2 = [("analysis.market_sentiment", [])].
Proof. vm_compute. repeat split. Qed.

Lemma C3_parameters_reach_dispatch_unchecked_witness :
  let params := [("symbol", JNum 7); ("timeframe", JStr "2h")] in
  let r := callTool agents_only (at_instant 1000 "k3j2h1g0f") "agent-1"
             "analysis.market_sentiment" params None activated_service in
  spec_schema_ok market_sentiment_tool params = false
  ∧ r.1 = (executeTool agents_only market_sentiment_tool params
             (spread_context "agent-1" None) 1000 activated_service).1
  ∧ dispatched r.2
    = dispatched activated_service ++ [(tool_id market_sentiment_tool, params)].
Proof.
  intros params. split; [reflexivity|].
  apply (C3_parameters_reach_dispatch_unchecked agents_only
           (at_instant 1000 "k3j2h1g0f") "agent-1" "analysis.market_sentiment" params None
           activated_service (createAgentPermissions "agent-1" initial_service)
           market_sentiment_tool).
  - vm_compute; reflexivity.
  - vm_compute; reflexivity.
  - reflexivity.
  - right; left; reflexivity.
Defined.

(** C5, as stated, fails: a call of an agent with an active session
    changes the call counters of no session. *)
Lemma C5_counterexample_no_session_updated :
  let st := activated_service in
  let r := do_call agents_only (sentiment_call 1000 "agent-1" [("symbol", JStr "BTC/USD")]) st in
  activeSessions "agent-1" st = 1%nat
  ∧ is_returned r.1 = true
  ∧ ¬ ∃ sid, session_updated st r.2 sid.
Proof.
  simpl. split; [reflexivity|]. split; [reflexivity|].
  intros [sid Hupd]. apply Hupd. unfold do_call.
  by rewrite callTool_sessions.
Qed.

Lemma C5_effects_of_a_call_witness :
  let st := activated_service in
  let r := callTool agents_only (at_instant 1000 "k3j2h1g0f") "agent-1"
             "analysis.market_sentiment" [] None st in
  (∃ record kept,
      callLogs r.2 = kept ++ [record]
      ∧ callLogs r.2 = keep_last_1000 (callLogs st ++ [record])
      ∧ kept `suffix_of` callLogs st
      ∧ ((length (callLogs st) < 1000)%nat → kept = callLogs st)
      ∧ log_agentId record = "agent-1" ∧ log_toolId record = "analysis.market_sentiment"
      ∧ log_parameters record = [] ∧ success record = is_returned r.1)
  ∧ (∀ tool, jm_get "analysis.market_sentiment" (tools st) = Some tool →
       ∃ tool', jm_get "analysis.market_sentiment" (tools r.2) = Some tool'
                ∧ totalCalls (usage tool') = totalCalls (usage tool) + 1)
  ∧ (jm_get "analysis.market_sentiment" (tools st) = None → tools r.2 = tools st)
  ∧ (∀ other, other ≠ "analysis.market_sentiment" →
       jm_get other (tools r.2) = jm_get other (tools st))
  ∧ sessions r.2 = sessions st.
Proof.
  exact (C5_effects_of_a_call agents_only (at_instant 1000 "k3j2h1g0f") "agent-1"
           "analysis.market_sentiment" [] None activated_service).
Defined.

(** ** Usage statistics *)

Section Usage.
Context (ok : bool) (dur now : Z) (u : ToolUsage).

Lemma bump_usage_totalCalls :
  totalCalls (bump_usage ok dur now u) = totalCalls u + 1.
Proof. done. Qed.

Lemma bump_usage_lastUsed : lastUsed (bump_usage ok dur now u) = now.
Proof. done. Qed.
End Usage.

(** Whatever the durations, the [successRate] of a fresh tool is 1 after
    one success and 1.5 after two. *)
Lemma successRate_of_two_successes (d1 n1 d2 n2 : Z) :
  successRate (bump_usage true d1 n1 fresh_usage) = 1%float
  ∧ successRate (bump_usage true d2 n2 (bump_usage true d1 n1 fresh_usage)) = 1.5%float.
Proof. split; reflexivity. Qed.

(** C8: two successful calls of a fresh tool, taking 40 ms and 20 ms.
    [totalCalls] goes 0, 1, 2 and [avgResponseTime] is the running mean
    (40, then 30), but [successRate] is 1 and then 1.5, where the running
    mean of the two successes, and the incremental-mean update of 1 with
    value 1 and count 2, is 1. All the values are doubles, as the code
    stores them. *)
Theorem C8_successRate_not_running_mean :
  let st0 := activated_service in
  let st1 := (do_call agents_only (timed_sentiment_call 1000 1040 "agent-1") st0).2 in
  let r2 := do_call agents_only (timed_sentiment_call 2000 2020 "agent-1") st1 in
  ∃ u0 u1 u2,
    sentiment_usage st0 = Some u0 ∧ sentiment_usage st1 = Some u1
    ∧ sentiment_usage r2.2 = Some u2
    ∧ success <$> callLogs r2.2 = [true; true]
    ∧ totalCalls u0 = 0 ∧ totalCalls u1 = 1 ∧ totalCalls u2 = 2
    ∧ (avgResponseTime u1 = 40 ∧ avgResponseTime u2 = 30
       ∧ avgResponseTime u2
         = spec_incremental_mean (avgResponseTime u1) 20 (float_of_Z (totalCalls u2)))%float
    ∧ (successRate u1 = 1 ∧ successRate u2 = 1.5
       ∧ spec_incremental_mean (successRate u1) 1 (float_of_Z (totalCalls u2)) = 1
       ∧ successRate u2
         ≠ spec_incremental_mean (successRate u1) 1 (float_of_Z (totalCalls u2)))%float.
Proof.
  do 3 eexists. split; [reflexivity|]. split; [reflexivity|]. split; [reflexivity|].
  vm_compute. repeat split.
  intros H. apply (f_equal (λ x, PrimFloat.eqb x 1)) in H. vm_compute in H. discriminate.
Qed.

(** ** Sessions *)

Section Sessions.
Context (svc : Services).
Implicit Types (st : MCPState) (agentId : string) (ss : list MCPSession).

Local Abbreviation active_among agentId ss :=
  (length (filter (λ s, is_active s = true) (filter (λ s, sess_agentId s = agentId) ss))).

Lemma active_among_app agentId ss1 ss2 :
  active_among agentId (ss1 ++ ss2)
  = (active_among agentId ss1 + active_among agentId ss2)%nat.
Proof. by rewrite !filter_app, length_app. Qed.

Lemma active_among_cons agentId s ss :
  active_among agentId (s :: ss)
  = (active_among agentId [s] + active_among agentId ss)%nat.
Proof. apply (active_among_app agentId [s] ss). Qed.

Lemma active_among_new agentId t_id t_start :
  active_among agentId [createSession agentId t_id t_start] = 1%nat.
Proof.
  rewrite (filter_cons_True (λ s, sess_agentId s = agentId)) by done.
  by rewrite filter_nil, filter_cons_True.
Qed.

Lemma active_among_foreign agentId other s :
  sess_agentId s = other → other ≠ agentId → active_among agentId [s] = 0%nat.
Proof.
  intros Hs Hne.
  by rewrite (filter_cons_False (λ s, sess_agentId s = agentId)) by congruence.
Qed.

Lemma active_among_closed agentId (now : nat → Z) k (m : JsMap MCPSession) :
  active_among agentId (jm_values (close_sessions agentId now k m)) = 0%nat.
Proof.
  unfold jm_values. revert k. induction m as [|[key s] m IH]; intros k; [done|].
  cbn [close_sessions fst snd]. case_bool_decide as Hs.
  - rewrite fmap_cons, active_among_cons, IH. cbn [snd].
    rewrite (filter_cons_True (λ s, sess_agentId s = agentId)) by done.
    by rewrite filter_nil, filter_cons_False.
  - rewrite fmap_cons, active_among_cons, IH. cbn [snd].
    by rewrite (filter_cons_False (λ s, sess_agentId s = agentId)).
Qed.

Lemma active_among_closed_other agentId other (now : nat → Z) k (m : JsMap MCPSession) :
  other ≠ agentId →
  active_among other (jm_values (close_sessions agentId now k m))
  = active_among other (jm_values m).
Proof.
  intros Hne. unfold jm_values. revert k.
  induction m as [|[key s] m IH]; intros k; [done|].
  cbn [close_sessions fst snd]. case_bool_decide as Hs.
  - rewrite !fmap_cons, active_among_cons, IH, (active_among_cons other s). cbn [snd].
    f_equal.
    rewrite (active_among_foreign other agentId (close_session (now k) s)) by done.
    by rewrite (active_among_foreign other agentId s).
  - rewrite !fmap_cons. cbn [snd].
    by rewrite (active_among_cons other s m.*2),
      (active_among_cons other s (close_sessions agentId now k m).*2), IH.
Qed.

Lemma activate_sessions agentId t_id t_start st agent_id :
  getAgent svc agentId = Some agent_id →
  sessions (activateForAgent svc agentId t_id t_start st).2
  = jm_set (sess_id (createSession agentId t_id t_start))
      (createSession agentId t_id t_start) (sessions st).
Proof. unfold activateForAgent. by intros ->. Qed.

Lemma activate_unknown agentId t_id t_start st :
  getAgent svc agentId = None →
  (activateForAgent svc agentId t_id t_start st).2 = st.
Proof. unfold activateForAgent. by intros ->. Qed.

Lemma activate_fresh_id agentId t_id t_start st agent_id :
  getAgent svc agentId = Some agent_id →
  jm_get (sess_id (createSession agentId t_id t_start)) (sessions st) = None →
  activeSessions agentId (activateForAgent svc agentId t_id t_start st).2
  = S (activeSessions agentId st).
Proof.
  intros Hknown Hfresh. unfold activeSessions, sessions_of.
  rewrite (activate_sessions _ _ _ _ _ Hknown), (jm_set_fresh _ _ _ Hfresh).
  unfold jm_values. rewrite fmap_app, active_among_app. simpl fmap.
  rewrite active_among_new. lia.
Qed.

Lemma activate_from_none agentId t_id t_start st agent_id :
  getAgent svc agentId = Some agent_id →
  activeSessions agentId st = 0%nat →
  activeSessions agentId (activateForAgent svc agentId t_id t_start st).2 = 1%nat.
Proof.
  intros Hknown. unfold activeSessions, sessions_of.
  rewrite (activate_sessions _ _ _ _ _ Hknown).
  destruct (jm_values_set (sess_id (createSession agentId t_id t_start))
              (createSession agentId t_id t_start) (sessions st))
    as [(vs1 & old & vs2 & Hvals & _ & ->)|[_ ->]].
  - rewrite Hvals, !active_among_app, (active_among_cons agentId old),
      (active_among_cons agentId (createSession _ _ _)), active_among_new. lia.
  - intros Hzero. by rewrite active_among_app, Hzero, active_among_new.
Qed.

Lemma activate_other agentId other t_id t_start st :
  other ≠ agentId →
  (activeSessions other (activateForAgent svc agentId t_id t_start st).2
   ≤ activeSessions other st)%nat.
Proof.
  intros Hne. destruct (getAgent svc agentId) as [agent_id|] eqn:Hknown.
  - unfold activeSessions, sessions_of. rewrite (activate_sessions _ _ _ _ _ Hknown).
    assert (Hnew : active_among other [createSession agentId t_id t_start] = 0%nat)
      by (by apply (active_among_foreign other agentId)).
    destruct (jm_values_set (sess_id (createSession agentId t_id t_start))
                (createSession agentId t_id t_start) (sessions st))
      as [(vs1 & old & vs2 & Hvals & _ & ->)|[_ ->]].
    + rewrite Hvals, !active_among_app, (active_among_cons other old),
        (active_among_cons other (createSession _ _ _)), Hnew. lia.
    + rewrite active_among_app, Hnew. lia.
  - by rewrite activate_unknown.
Qed.

Lemma deactivate_none agentId now st :
  activeSessions agentId (deactivateForAgent agentId now st) = 0%nat.
Proof. apply active_among_closed. Qed.

Lemma deactivate_other agentId other now st :
  other ≠ agentId →
  activeSessions other (deactivateForAgent agentId now st) = activeSessions other st.
Proof. intros Hne. by apply active_among_closed_other. Qed.

(** One guarded step keeps "at most one Active session per agent". *)
Lemma apply_op_single op st :
  (∀ a, (activeSessions a st ≤ 1)%nat) →
  op_guarded op st →
  ∀ a, (activeSessions a (apply_op svc op st) ≤ 1)%nat.
Proof.
  intros Hinv Hguard a. destruct op as [agentId t_id t_start|agentId now]; simpl in *.
  - destruct (decide (a = agentId)) as [->|Hne].
    + destruct (getAgent svc agentId) as [agent_id|] eqn:Hknown.
      * by rewrite (activate_from_none _ _ _ _ _ Hknown Hguard).
      * rewrite activate_unknown by done. apply Hinv.
    + etrans; [by apply activate_other|apply Hinv].
  - destruct (decide (a = agentId)) as [->|Hne].
    + rewrite deactivate_none. lia.
    + rewrite deactivate_other by done. apply Hinv.
Qed.

Lemma run_guarded_single ops rest st :
  (∀ a, (activeSessions a st ≤ 1)%nat) →
  run_guarded svc (ops ++ rest) st →
  ∀ a, (activeSessions a (run_ops svc ops st) ≤ 1)%nat.
Proof.
  revert st. induction ops as [|op ops IH]; intros st Hinv Hrun; [done|].
  destruct Hrun as [Hguard Hrun]. apply (IH (apply_op svc op st)); [|done].
  by apply apply_op_single.
Qed.

(** C4 (amended): activation of a known agent creates an Active session
    unconditionally: the session is stored under its id whether or not
    the agent already has an Active session, and under an id not yet in
    use it adds one to the agent's Active sessions. Deactivation leaves
    the agent without an Active session. Hence every agent has at most
    one Active session at every point of those sequences of activations
    and deactivations in which each activation finds its agent without an
    Active session. *)
Theorem C4_single_session_needs_guarded_activation :
  (∀ agentId t_id t_start st agent_id,
     getAgent svc agentId = Some agent_id →
     let new := createSession agentId t_id t_start in
     let st' := (activateForAgent svc agentId t_id t_start st).2 in
     jm_get (sess_id new) (sessions st') = Some new
     ∧ is_active new = true ∧ sess_agentId new = agentId
     ∧ (jm_get (sess_id new) (sessions st) = None →
        activeSessions agentId st' = S (activeSessions agentId st)))
  ∧ (∀ agentId now st,
       activeSessions agentId (deactivateForAgent agentId now st) = 0%nat)
  ∧ (∀ ops rest st,
       (∀ a, (activeSessions a st ≤ 1)%nat) →
       run_guarded svc (ops ++ rest) st →
       ∀ a, (activeSessions a (run_ops svc ops st) ≤ 1)%nat).
Proof.
  split; [|split].
  - intros agentId t_id t_start st agent_id Hknown new st'.
    split; [|split; [done|split; [done|]]].
    + unfold st'. rewrite (activate_sessions _ _ _ _ _ Hknown). apply jm_get_set_eq.
    + by apply (activate_fresh_id _ _ _ _ agent_id).
  - apply deactivate_none.
  - apply run_guarded_single.
Qed.
End Sessions.

(** C4, as stated, fails: activating an agent that already has an Active
    session creates a second one. *)
Lemma C4_counterexample_two_active_sessions :
  let st1 := (activateForAgent agents_only "agent-1" 1000 1000 initial_service).2 in
  let r := activateForAgent agents_only "agent-1" 2000 2000 st1 in
  activeSessions "agent-1" st1 = 1%nat
  ∧ r.1 = (true, [])
  ∧ activeSessions "agent-1" r.2 = 2%nat.
Proof. vm_compute. repeat split. Qed.

Lemma C4_single_session_needs_guarded_activation_witness :
  let ops := [Activate "agent-1" 1000 1000;
              Deactivate "agent-1" (λ k, 1500 + Z.of_nat k);
              Activate "agent-1" 2000 2000; Activate "agent-2" 2000 2000] in
  run_guarded agents_only ops initial_service
  ∧ (∀ a, (activeSessions a (run_ops agents_only ops initial_service) ≤ 1)%nat)
  ∧ activeSessions "agent-1" (run_ops agents_only ops initial_service) = 1%nat.
Proof.
  intros ops.
  assert (Hrun : run_guarded agents_only (ops ++ []) initial_service)
    by (vm_compute; repeat split).
  split; [exact Hrun|]. split; [|reflexivity].
  apply (proj2 (proj2 (C4_single_session_needs_guarded_activation agents_only))
           ops [] initial_service); [|exact Hrun].
  intros a. vm_compute. lia.
Defined.

(** ** The decision validator *)

Section Validator.
Implicit Types (d : AIDecision) (p : Portfolio) (c : AgentConfig).

Lemma str_truthy_Some (s : option string) :
  str_truthy s = true ↔ ∃ x, s = Some x ∧ x ≠ "".
Proof.
  destruct s as [x|]; simpl.
  - rewrite negb_true_iff, bool_decide_eq_false. split.
    + intros Hx. by exists x.
    + intros (y & [= <-] & Hy). done.
  - split; [done|]. by intros (y & [=] & _).
Qed.

(** Truthiness of a number, read off its IEEE 754 class. *)
Lemma num_truthy_class (x : float) :
  num_truthy (Some x)
  = match Prim2SF x with
    | S754_zero _ | S754_nan => false
    | _ => true
    end.
Proof.
  unfold num_truthy, is_zero, is_nan. rewrite !FloatAxioms.eqb_spec.
  change (Prim2SF zero) with (S754_zero false).
  destruct (Prim2SF x) as [[]|[]| |[] m e]; try done;
    unfold SFeqb, SFcompare; by rewrite Z.compare_refl, Pos.compare_cont_refl.
Qed.

(** A product of doubles that is neither zero nor NaN has factors that
    are neither. *)
Lemma truthy_product (x y : float) :
  num_truthy (Some (x * y)%float) = true →
  num_truthy (Some x) = true ∧ num_truthy (Some y) = true.
Proof.
  rewrite !num_truthy_class, FloatAxioms.mul_spec.
  destruct (Prim2SF x) as [s|s| |s m e], (Prim2SF y) as [s'|s'| |s' m' e'];
    cbn; try done.
Qed.

Lemma example_cost act (qty unit_price : float) :
  num_truthy (Some (qty * unit_price)%float) = true →
  estimated_cost (example_decision act qty unit_price) = (qty * unit_price)%float.
Proof.
  intros [_ Hprice]%truthy_product. unfold estimated_cost, num_or. simpl.
  simpl in Hprice. by rewrite Hprice.
Qed.

Lemma example_limit : max_risk example_portfolio example_config = 50%float.
Proof. reflexivity. Qed.

Lemma lacks_rule d :
  negb (str_truthy (action d)) || negb (str_truthy (reasoning d)) = true
  ↔ str_truthy (action d) = false ∨ str_truthy (reasoning d) = false.
Proof. rewrite orb_true_iff, !negb_true_iff. done. Qed.

Lemma risk_rule d p c :
  bool_decide (action d = Some "buy") && num_truthy (quantity d)
    && gt_bool (estimated_cost d) (max_risk p c) = true
  ↔ action d = Some "buy" ∧ num_truthy (quantity d) = true
    ∧ (max_risk p c <? estimated_cost d)%float = true.
Proof. rewrite !andb_true_iff, bool_decide_eq_true. unfold gt_bool. tauto. Qed.

Lemma symbol_rule d c :
  str_truthy (symbol d) && negb (includes (symbols c) (default "" (symbol d))) = true
  ↔ ∃ s, symbol d = Some s ∧ s ≠ "" ∧ s ∉ symbols c.
Proof.
  rewrite andb_true_iff, negb_true_iff, str_truthy_Some.
  unfold includes. rewrite bool_decide_eq_false. split.
  - intros [(s & Hs & Hne) Hout]. rewrite Hs in Hout. by exists s.
  - intros (s & Hs & Hne & Hout). rewrite Hs. split; [by exists s|done].
Qed.

(** The three rejection rules of [validateDecision], in the terms of
    the decision's fields. *)
Lemma validateDecision_rejects_iff d p c :
  validateDecision d p c = false ↔
    (str_truthy (action d) = false ∨ str_truthy (reasoning d) = false)
    ∨ (action d = Some "buy" ∧ num_truthy (quantity d) = true
       ∧ (max_risk p c <? estimated_cost d)%float = true)
    ∨ (∃ s, symbol d = Some s ∧ s ≠ "" ∧ s ∉ symbols c).
Proof.
  rewrite <- lacks_rule, <- (risk_rule d p c), <- symbol_rule.
  unfold validateDecision.
  destruct (negb (str_truthy (action d)) || negb (str_truthy (reasoning d)));
    [tauto|].
  destruct (bool_decide (action d = Some "buy") && num_truthy (quantity d)
            && gt_bool (estimated_cost d) (max_risk p c)); [tauto|].
  destruct (str_truthy (symbol d)
            && negb (includes (symbols c) (default "" (symbol d)))); [tauto|].
  split; [done|]. intros [?|[?|?]]; done.
Qed.

(** C6 (amended): the validator rejects a decision exactly when it lacks
    an action or a rationale, or its action is 'buy' with a quantity that
    is neither zero nor NaN and its estimated cost exceeds the risk limit,
    or it names a symbol outside the allowed set. The estimated cost is
    the double product quantity × price (price read as 0 when it is
    absent, zero or NaN) and the limit is the double product
    cash × maxRiskPerTrade (0.05 when that is zero or NaN); the two
    products are rounded as doubles before they are compared. In
    particular, with cash 1000 and maxRiskPerTrade 0.05 a buy whose
    product quantity × price is the double 60 is rejected and a buy
    whose product is the double 40, on an allowed symbol, is accepted. *)
Theorem C6_validator_rules :
  (∀ d p c,
     validateDecision d p c = false ↔
       (str_truthy (action d) = false ∨ str_truthy (reasoning d) = false)
       ∨ (action d = Some "buy" ∧ num_truthy (quantity d) = true
          ∧ (cash p * num_or (Some (maxRiskPerTrade c)) 0.05
             <? default 0 (quantity d) * num_or (price d) 0)%float = true)
       ∨ (∃ s, symbol d = Some s ∧ s ≠ "" ∧ s ∉ symbols c))
  ∧ (∀ qty unit_price : float,
       (qty * unit_price)%float = 60%float →
       validateDecision (example_decision "buy" qty unit_price)
         example_portfolio example_config = false)
  ∧ (∀ qty unit_price : float,
       (qty * unit_price)%float = 40%float →
       validateDecision (example_decision "buy" qty unit_price)
         example_portfolio example_config = true).
Proof.
  split; [exact validateDecision_rejects_iff|]. split.
  - intros qty unit_price Hcost.
    assert (Htruthy : num_truthy (Some (qty * unit_price)%float) = true)
      by (by rewrite Hcost).
    apply validateDecision_rejects_iff. right; left. split; [done|]. split.
    + by apply truthy_product in Htruthy as [Hqty _].
    + by rewrite example_cost, example_limit, Hcost.
  - intros qty unit_price Hcost.
    assert (Htruthy : num_truthy (Some (qty * unit_price)%float) = true)
      by (by rewrite Hcost).
    apply not_false_iff_true. rewrite validateDecision_rejects_iff.
    intros [[?|?]|[(_ & _ & Hc)|(s & Hs & _ & Hout)]].
    + done.
    + done.
    + rewrite example_cost, example_limit, Hcost in Hc by done. by vm_compute in Hc.
    + injection Hs as <-. apply Hout. set_solver.
Qed.

(** C10: the risk limit is checked only for a 'buy' that carries a
    quantity. A decision with an action and a rationale that is not such
    a buy, and whose symbol is absent or in the allowed set, passes
    validation whatever its cost is relative to the limit. *)
Theorem C10_risk_check_only_for_buy d p c :
  str_truthy (action d) = true →
  str_truthy (reasoning d) = true →
  action d ≠ Some "buy" ∨ num_truthy (quantity d) = false →
  symbol d = None ∨ (∃ s, symbol d = Some s ∧ s ∈ symbols c) →
  validateDecision d p c = true.
Proof.
  intros Ha Hr Hnot Hsym. apply not_false_iff_true.
  rewrite validateDecision_rejects_iff.
  intros [[?|?]|[(Hbuy & Hq & _)|(s & Hs & _ & Hout)]]; [congruence|congruence| |].
  - destruct Hnot; congruence.
  - destruct Hsym as [Hnone|(s' & Hs' & Hin)]; [congruence|].
    rewrite Hs in Hs'. injection Hs' as <-. done.
Qed.
End Validator.

(** C6, as stated, fails: with cash 1000 and maxRiskPerTrade 0.05 a sell
    of cost 60, above the limit of 50, with an action, a rationale and an
    allowed symbol, is accepted. *)
Lemma C6_counterexample_sell_over_limit :
  let d := example_decision "sell" 1 60 in
  str_truthy (action d) = true ∧ str_truthy (reasoning d) = true
  ∧ includes (symbols example_config) "BTC/USD" = true
  ∧ estimated_cost d = 60%float
  ∧ (cash example_portfolio * maxRiskPerTrade example_config)%float = 50%float
  ∧ validateDecision d example_portfolio example_config = true.
Proof. vm_compute. repeat split. Qed.

Lemma C6_validator_rules_witness :
  validateDecision (example_decision "buy" 2 30) example_portfolio example_config = false
  ∧ validateDecision (example_decision "buy" 2 20) example_portfolio example_config = true.
Proof.
  split.
  - apply (proj1 (proj2 C6_validator_rules) 2%float 30%float). reflexivity.
  - apply (proj2 (proj2 C6_validator_rules) 2%float 20%float). reflexivity.
Defined.

(** The comparison is between the rounded products: a buy of 0.95 units
    at 29.32 against cash 557.0799999999999 has a cost that exceeds 5% of
    the cash as a product of reals, yet both double products round to the
    same double and the decision is accepted. *)
Lemma rounded_products_are_compared :
  let d := example_decision "buy" 0.95 29.32 in
  let p := {| totalValue := 1000; cash := 557.0799999999999; positions := []; pnl := 0 |} in
  estimated_cost d = max_risk p example_config
  ∧ validateDecision d p example_config = true.
Proof. vm_compute. repeat split. Qed.

Lemma C10_risk_check_only_for_buy_witness :
  (max_risk example_portfolio example_config
   <? estimated_cost (example_decision "sell" 1 60))%float = true
  ∧ validateDecision (example_decision "sell" 1 60) example_portfolio example_config = true.
Proof.
  split; [reflexivity|].
  apply (C10_risk_check_only_for_buy (example_decision "sell" 1 60)
           example_portfolio example_config).
  - reflexivity.
  - reflexivity.
  - left. discriminate.
  - right. exists "BTC/USD". split; [reflexivity|]. apply list_elem_of_here.
Defined.

(** ** The decision loop: the steps of stop, pause and start *)

Section LoopSteps.
Context (be : Backend).
Implicit Types (st : LoopState) (agentId : string).

Lemma clear_timer_loops agentId st :
  activeLoops (clear_timer agentId st) = delete agentId (activeLoops st)
  ∧ agentStates (clear_timer agentId st) = agentStates st
  ∧ statusPosts (clear_timer agentId st) = statusPosts st.
Proof.
  unfold clear_timer. destruct (activeLoops st !! agentId) eqn:Htm; [done|].
  by rewrite delete_id.
Qed.

Lemma mark_fields agentId s st :
  activeLoops (mark agentId s st) = activeLoops st
  ∧ agentStates (mark agentId s st) = alter (with_status s) agentId (agentStates st)
  ∧ statusPosts (mark agentId s st) = statusPosts st.
Proof.
  unfold mark. destruct (agentStates st !! agentId) as [a|] eqn:Ha; simpl.
  - split; [done|]. split; [|done]. apply map_eq. intros id.
    destruct (decide (id = agentId)) as [->|Hne].
    + by rewrite lookup_insert_eq, lookup_alter_eq, Ha.
    + by rewrite lookup_insert_ne, lookup_alter_ne.
  - split; [done|]. split; [|done]. apply map_eq. intros id.
    destruct (decide (id = agentId)) as [->|Hne].
    + by rewrite lookup_alter_eq, Ha.
    + by rewrite lookup_alter_ne.
Qed.

Lemma mark_tracked agentId s st agent :
  agentStates st !! agentId = Some agent →
  agentStates (mark agentId s st) = <[agentId := with_status s agent]> (agentStates st)
  ∧ activeLoops (mark agentId s st) = activeLoops st
  ∧ statusPosts (mark agentId s st) = statusPosts st.
Proof. unfold mark. by intros ->. Qed.

(** What a status save leaves behind, whether it throws or not. *)
Lemma updateAgentStatus_fields agentId s st :
  (updateAgentStatus be agentId s st).1 = saveStatus be (length (statusPosts st)) agentId s
  ∧ activeLoops (updateAgentStatus be agentId s st).2 = activeLoops st
  ∧ agentStates (updateAgentStatus be agentId s st).2 = agentStates st
  ∧ statusPosts (updateAgentStatus be agentId s st).2 = statusPosts st ++ [(agentId, s)].
Proof. done. Qed.

(** [stopAgent] and [pauseAgent]: the outcome is that of the save, and
    the state is changed whatever the outcome. *)
Lemma halted_fields (s : AgentStatus) agentId st :
  let r := updateAgentStatus be agentId s (mark agentId s (clear_timer agentId st)) in
  r.1 = saveStatus be (length (statusPosts st)) agentId s
  ∧ activeLoops r.2 = delete agentId (activeLoops st)
  ∧ agentStates r.2 = alter (with_status s) agentId (agentStates st)
  ∧ statusPosts r.2 = statusPosts st ++ [(agentId, s)].
Proof.
  destruct (clear_timer_loops agentId st) as (Hl & Hs & Hp).
  destruct (mark_fields agentId s (clear_timer agentId st)) as (Hl' & Hs' & Hp').
  unfold updateAgentStatus. simpl. by rewrite Hl', Hs', Hp', Hl, Hs, Hp.
Qed.

Lemma stopAgent_fields agentId st :
  (stopAgent be agentId st).1 = saveStatus be (length (statusPosts st)) agentId AgStopped
  ∧ activeLoops (stopAgent be agentId st).2 = delete agentId (activeLoops st)
  ∧ agentStates (stopAgent be agentId st).2
    = alter (with_status AgStopped) agentId (agentStates st)
  ∧ statusPosts (stopAgent be agentId st).2 = statusPosts st ++ [(agentId, AgStopped)].
Proof. apply (halted_fields AgStopped). Qed.

Lemma pauseAgent_fields agentId st :
  (pauseAgent be agentId st).1 = saveStatus be (length (statusPosts st)) agentId AgPaused
  ∧ activeLoops (pauseAgent be agentId st).2 = delete agentId (activeLoops st)
  ∧ agentStates (pauseAgent be agentId st).2
    = alter (with_status AgPaused) agentId (agentStates st)
  ∧ statusPosts (pauseAgent be agentId st).2 = statusPosts st ++ [(agentId, AgPaused)].
Proof. apply (halted_fields AgPaused). Qed.

(** The catch branch of [startAgent] always throws, and only posts. *)
Lemma start_failed_fields e agentId st :
  is_returned (start_failed be agentId e st).1 = false
  ∧ activeLoops (start_failed be agentId e st).2 = activeLoops st
  ∧ agentStates (start_failed be agentId e st).2 = agentStates st
  ∧ statusPosts (start_failed be agentId e st).2 = statusPosts st ++ [(agentId, AgError)].
Proof.
  unfold start_failed, updateAgentStatus.
  by destruct (saveStatus be (length (statusPosts st)) agentId AgError).
Qed.

(** [startAgent] on an agent that loads, by the outcomes of its two
    saves. *)
Lemma startAgent_loaded agentId st agent :
  loadAgent be agentId = Returned (Some agent) →
  let n := length (statusPosts st) in
  let st1 := (stopAgent be agentId st).2 in
  let st2 := (updateAgentStatus be agentId AgActive (arm agentId agent st1)).2 in
  startAgent be agentId st
  = match saveStatus be n agentId AgStopped with
    | Thrown e => start_failed be agentId e st1
    | Returned _ =>
        match saveStatus be (S n) agentId AgActive with
        | Thrown e => start_failed be agentId e st2
        | Returned _ => (Returned (), st2)
        end
    end.
Proof.
  intros Hload n st1 st2. unfold startAgent. rewrite Hload.
  destruct (stopAgent_fields agentId st) as (Hout & _ & _ & Hposts).
  fold st1 in Hposts. fold n in Hout.
  destruct (stopAgent be agentId st) as [o1 st1'] eqn:Hstop.
  simpl in Hout. subst o1 st1. simpl in *.
  destruct (saveStatus be n agentId AgStopped) as [[]|e]; [|done].
  assert (Hlen : length (statusPosts st1') = S n)
    by (rewrite Hposts, length_app; simpl; lia).
  unfold st2, updateAgentStatus. cbn [statusPosts arm]. rewrite Hlen.
  by destruct (saveStatus be (S n) agentId AgActive) as [[]|e].
Qed.

(** The state an armed start leaves: the timer and the Active copy of
    the loaded agent under the requested id, all else as after the
    stop. *)
Lemma armed_fields agentId st agent :
  let st2 := (updateAgentStatus be agentId AgActive
                (arm agentId agent (stopAgent be agentId st).2)).2 in
  activeLoops st2
  = <[agentId := {| timer_agent := agent; timer_interval := interval_of agent |}]>
      (delete agentId (activeLoops st))
  ∧ agentStates st2
    = <[agentId := with_status AgActive agent]>
        (alter (with_status AgStopped) agentId (agentStates st))
  ∧ statusPosts st2 = statusPosts st ++ [(agentId, AgStopped); (agentId, AgActive)].
Proof.
  destruct (stopAgent_fields agentId st) as (_ & Hl & Hs & Hp).
  unfold updateAgentStatus, arm. cbn [snd activeLoops agentStates statusPosts].
  rewrite Hl, Hs, Hp. by rewrite <- app_assoc.
Qed.
End LoopSteps.

(** ** The decision loop: cycle failures *)

Section Failures.
Context (be : Backend).
Implicit Types (st : LoopState) (agentId : string) (inp : CycleInputs).

Lemma failed_cycle_is_handled inp agent st :
  cycle_fails inp agent = true →
  executeDecisionCycle be inp agent st = handleDecisionError be (agent_id agent) st.
Proof.
  unfold cycle_fails, executeDecisionCycle.
  destruct (cy_decision inp) as [decision|]; [|done].
  destruct (validateDecision _ _ _).
  - destruct (cy_execution inp), (cy_memory inp); simpl; done.
  - destruct (cy_memory inp); simpl; done.
Qed.

(** A performed cycle that does not fail leaves the timers alone. *)
Lemma updatePerformance_timers agentId result st :
  activeLoops (updatePerformance agentId result st) = activeLoops st.
Proof. unfold updatePerformance. by case_match. Qed.

Lemma tick_unarmed inp agentId st :
  activeLoops st !! agentId = None → tick be inp agentId st = st.
Proof. unfold tick. by intros ->. Qed.

Lemma ticks_unarmed inps agentId st :
  activeLoops st !! agentId = None → ticks be inps agentId st = st.
Proof.
  intros Hnone. induction inps as [|inp inps IH] using rev_ind; [done|].
  unfold ticks in *. rewrite fold_left_app. simpl. rewrite IH.
  by apply tick_unarmed.
Qed.

Lemma stopAgent_tracked agentId st agent :
  agentStates st !! agentId = Some agent →
  activeLoops (stopAgent be agentId st).2 = delete agentId (activeLoops st)
  ∧ agentStates (stopAgent be agentId st).2
    = <[agentId := with_status AgStopped agent]> (agentStates st).
Proof.
  intros Hagent. unfold stopAgent.
  destruct (clear_timer_loops agentId st) as (Hloops & Hstates & _).
  destruct (mark_tracked agentId AgStopped (clear_timer agentId st) agent)
    as (Hstates' & Hloops' & _); [by rewrite Hstates|].
  destruct (updateAgentStatus_fields be agentId AgStopped
              (mark agentId AgStopped (clear_timer agentId st)))
    as (_ & -> & -> & _).
  by rewrite Hloops', Hloops, Hstates', Hstates.
Qed.

(** [handleDecisionError] when the save of the [error] status throws or
    the counter is at most 10: the agent is marked and nothing else
    happens. *)
Lemma handleDecisionError_marks agentId st agent :
  agentStates st !! agentId = Some agent →
  errorCount agent ≤ 10
  ∨ is_returned (saveStatus be (length (statusPosts st)) agentId AgError) = false →
  agentStates (handleDecisionError be agentId st).2
  = <[agentId := with_status AgError agent]> (agentStates st)
  ∧ activeLoops (handleDecisionError be agentId st).2 = activeLoops st.
Proof.
  intros Hagent Hcase. unfold handleDecisionError. rewrite Hagent.
  destruct (mark_tracked agentId AgError st agent Hagent) as (Hstates & Hloops & Hposts).
  unfold updateAgentStatus. rewrite Hposts, Hstates, Hloops.
  destruct (saveStatus be (length (statusPosts st)) agentId AgError) as [[]|e];
    [|done].
  destruct Hcase as [Hle|?]; [|done]. by rewrite bool_decide_false by lia.
Qed.

(** [handleDecisionError] when the save goes through and the counter
    exceeds 10: the agent is stopped. *)
Lemma handleDecisionError_stops agentId st agent :
  agentStates st !! agentId = Some agent →
  10 < errorCount agent →
  is_returned (saveStatus be (length (statusPosts st)) agentId AgError) = true →
  agentStates (handleDecisionError be agentId st).2
  = <[agentId := with_status AgStopped agent]> (agentStates st)
  ∧ activeLoops (handleDecisionError be agentId st).2 = delete agentId (activeLoops st).
Proof.
  intros Hagent Hgt Hsaved. unfold handleDecisionError. rewrite Hagent.
  destruct (mark_tracked agentId AgError st agent Hagent) as (Hstates & Hloops & Hposts).
  unfold updateAgentStatus. rewrite Hposts.
  destruct (saveStatus be (length (statusPosts st)) agentId AgError) as [[]|e];
    [|done].
  rewrite bool_decide_true by lia.
  edestruct (stopAgent_tracked agentId) as [-> ->].
  { cbn [agentStates]. rewrite Hstates. apply lookup_insert_eq. }
  cbn [agentStates activeLoops]. rewrite Hstates, Hloops.
  by rewrite insert_insert_eq.
Qed.

(** C7 (amended): a decision-cycle failure is charged to the agent
    tracked under the id that the record the timer was armed with
    carries. That agent's status is set to Error at once and the save of
    the status is attempted. If the save goes through and the error
    counter totalDecisions − successfulDecisions exceeds 10 at that
    moment, the agent is then stopped: the timer stored under its id is
    cancelled and its status ends as Stopped; when that id is the one the
    timer that fired is stored under (the agent was started under the id
    of its record), no later tick runs a cycle. While the counter is at
    most 10, or when the save of the Error status throws, every timer
    stays armed and the status stays Error. *)
Theorem C7_cycle_failure_handling inp agentId st tm agent :
  activeLoops st !! agentId = Some tm →
  cycle_fails inp (timer_agent tm) = true →
  agentStates st !! agent_id (timer_agent tm) = Some agent →
  let charged := agent_id (timer_agent tm) in
  let saved := saveStatus be (length (statusPosts st)) charged AgError in
  let st' := tick be inp agentId st in
  (errorCount agent ≤ 10 ∨ is_returned saved = false →
     agentStates st' !! charged = Some (with_status AgError agent)
     ∧ activeLoops st' = activeLoops st)
  ∧ (10 < errorCount agent → is_returned saved = true →
     agentStates st' !! charged = Some (with_status AgStopped agent)
     ∧ activeLoops st' = delete charged (activeLoops st)
     ∧ (charged = agentId → ∀ inps, ticks be inps agentId st' = st')).
Proof.
  intros Htm Hfail Hagent charged saved st'.
  assert (Hst' : st' = (handleDecisionError be charged st).2).
  { unfold st', tick. by rewrite Htm, failed_cycle_is_handled. }
  split.
  - intros Hcase.
    destruct (handleDecisionError_marks charged st agent Hagent Hcase) as [Hstates Hloops].
    rewrite Hst', Hstates, Hloops. by rewrite lookup_insert_eq.
  - intros Hgt Hsaved.
    destruct (handleDecisionError_stops charged st agent Hagent Hgt Hsaved)
      as [Hstates Hloops].
    rewrite Hst', Hstates, Hloops. split; [by rewrite lookup_insert_eq|].
    split; [done|]. intros <- inps. rewrite <- Hst'. apply ticks_unarmed.
    rewrite Hst', Hloops. apply lookup_delete_eq.
Qed.
End Failures.

(** C7, as stated, fails: after 11 consecutive failed cycles of a
    freshly started agent the timer is still armed and the next tick runs
    a cycle; the status is Error since the first failure, and the counter
    totalDecisions − successfulDecisions has not moved. (Rejected
    decisions do move the counter, but 11 of them in a row leave the agent
    Active with its timer armed.) *)
Lemma C7_counterexample_timer_survives_11_failures :
  let st1 := tick example_backend failing_cycle "agent-1" started_loop in
  let st11 := ticks example_backend (replicate 11 failing_cycle) "agent-1" started_loop in
  cycle_fails failing_cycle (fresh_agent "agent-1") = true
  ∧ status <$> agentStates st1 !! "agent-1" = Some AgError
  ∧ status <$> agentStates st11 !! "agent-1" = Some AgError
  ∧ errorCount <$> agentStates st11 !! "agent-1" = Some 0
  ∧ timer_interval <$> activeLoops st11 !! "agent-1" = Some 30000
  ∧ totalDecisions ∘ performance
      <$> agentStates (tick example_backend rejected_cycle "agent-1" st11) !! "agent-1"
    = Some 1
  ∧ errorCount <$> agentStates (after_rejections 11) !! "agent-1" = Some 11
  ∧ status <$> agentStates (after_rejections 11) !! "agent-1" = Some AgActive
  ∧ timer_interval <$> activeLoops (after_rejections 11) !! "agent-1" = Some 30000.
Proof. vm_compute. repeat split. Qed.

(** After 11 rejected decisions a failed cycle stops "agent-1" when the
    status save goes through, and leaves its timer armed when the browser
    storage is full. *)
Lemma C7_cycle_failure_handling_witness :
  let agent := rejected_times 11 (fresh_agent "agent-1") in
  let st' := tick example_backend failing_cycle "agent-1" (after_rejections 11) in
  let st'' := tick unsaving_backend failing_cycle "agent-1" (after_rejections 11) in
  (agentStates st' !! "agent-1" = Some (with_status AgStopped agent)
   ∧ activeLoops st' = delete "agent-1" (activeLoops (after_rejections 11))
   ∧ ticks example_backend [failing_cycle; rejected_cycle] "agent-1" st' = st')
  ∧ (agentStates st'' !! "agent-1" = Some (with_status AgError agent)
     ∧ activeLoops st'' = activeLoops (after_rejections 11)).
Proof.
  split.
  - destruct (proj2 (C7_cycle_failure_handling example_backend failing_cycle "agent-1"
                (after_rejections 11)
                {| timer_agent := fresh_agent "agent-1"; timer_interval := 30000 |}
                (rejected_times 11 (fresh_agent "agent-1"))
                ltac:(vm_compute; reflexivity) ltac:(reflexivity)
                ltac:(vm_compute; reflexivity))
              ltac:(vm_compute; reflexivity) ltac:(reflexivity))
      as (Hstate & Hloops & Hlater).
    split; [exact Hstate|]. split; [exact Hloops|]. by apply Hlater.
  - apply (proj1 (C7_cycle_failure_handling unsaving_backend failing_cycle "agent-1"
                (after_rejections 11)
                {| timer_agent := fresh_agent "agent-1"; timer_interval := 30000 |}
                (rejected_times 11 (fresh_agent "agent-1"))
                ltac:(vm_compute; reflexivity) ltac:(reflexivity)
                ltac:(vm_compute; reflexivity))).
    right. reflexivity.
Defined.

(** ** The decision loop: bulk start *)

Section BulkStart.
Context (be : Backend).
Implicit Types (st : LoopState) (agents : list BackendAgent).

(** A start that throws ends the loop: the agents after it are not
    looked at. *)
Lemma start_each_abandons agent agents st :
  eligible agent = true →
  is_returned (startAgent be (ba_id agent) st).1 = false →
  start_each be (agent :: agents) st = (startAgent be (ba_id agent) st).2.
Proof.
  intros Hel Hthrown. simpl. rewrite Hel.
  by destruct (startAgent be (ba_id agent) st) as [[[]|e] st'].
Qed.

(** Every start of an agent, returning or throwing, posts a status for
    it. *)
Lemma startAgent_posts agentId st :
  ∃ s posts, statusPosts (startAgent be agentId st).2 = posts ++ [(agentId, s)].
Proof.
  unfold startAgent, start_failed, stopAgent, updateAgentStatus.
  destruct (loadAgent be agentId) as [[agent|]|e]; repeat case_match;
    simplify_eq/=; eauto.
Qed.
End BulkStart.

(** C9: the backend lists "ghost", which cannot be loaded, before
    "agent-1", which can. [startAgent "agent-1"] on its own arms a timer,
    but [startAllAgents] ends at the failed start of "ghost": "agent-1"
    gets no timer, no state and not even a status post, i.e. its start is
    never attempted. *)
Theorem C9_startAll_abandons_remaining_agents :
  let st := startAllAgents example_backend empty_loop in
  listAgents example_backend = Returned [listed "ghost"; listed "agent-1"]
  ∧ startAgent example_backend "ghost" empty_loop
    = (Thrown "Agent ghost not found",
       (updateAgentStatus example_backend "ghost" AgError empty_loop).2)
  ∧ is_returned (startAgent example_backend "agent-1" empty_loop).1 = true
  ∧ timer_interval
      <$> activeLoops (startAgent example_backend "agent-1" empty_loop).2 !! "agent-1"
    = Some 30000
  ∧ activeLoops st !! "agent-1" = None
  ∧ agentStates st !! "agent-1" = None
  ∧ statusPosts st = [("ghost", AgError)].
Proof. vm_compute. repeat split. Qed.

(** * Further properties *)

(** ** The gateway: refusals, the log and the statistics *)

Section GatewayRefusals.
Context (svc : Services).
Implicit Types (st : MCPState) (clk : CallClock) (params : JsRecord)
  (context : option JsRecord) (agentId toolId : string).

Lemma checked_dispatch_unregistered clk agentId toolId params context st :
  agentPermissions st !! agentId = None →
  checked_dispatch svc clk agentId toolId params context st
  = (Thrown "Agent not registered for MCP", st).
Proof. unfold checked_dispatch. by intros ->. Qed.

Lemma checked_dispatch_unavailable clk agentId toolId params context st perms :
  agentPermissions st !! agentId = Some perms →
  enabled <$> jm_get toolId (tools st) ≠ Some true →
  checked_dispatch svc clk agentId toolId params context st
  = (Thrown ("Tool not found or disabled: " +:+ toolId), st).
Proof.
  unfold checked_dispatch. intros -> Hoff.
  destruct (jm_get toolId (tools st)) as [tool|]; [|done].
  simpl in Hoff. by destruct (enabled tool).
Qed.

(** X1: A call returns only for a registered agent and a registered,
    enabled tool whose id has an implementation. *)
Theorem callTool_returns_only_when_cleared clk agentId toolId params context st :
  is_returned (callTool svc clk agentId toolId params context st).1 = true →
  ∃ perms tool,
    agentPermissions st !! agentId = Some perms
    ∧ jm_get toolId (tools st) = Some tool
    ∧ enabled tool = true
    ∧ implemented (tool_id tool).
Proof.
  rewrite callTool_outcome. intros Hret.
  destruct (agentPermissions st !! agentId) as [perms|] eqn:Hperms;
    [|by rewrite checked_dispatch_unregistered in Hret].
  destruct (jm_get toolId (tools st)) as [tool|] eqn:Htool; cycle 1.
  { rewrite (checked_dispatch_unavailable _ _ _ _ _ _ perms) in Hret; [done..|].
    by rewrite Htool. }
  destruct (enabled tool) eqn:Hen; cycle 1.
  { rewrite (checked_dispatch_unavailable _ _ _ _ _ _ perms) in Hret; [done..|].
    rewrite Htool. simpl. by rewrite Hen. }
  rewrite (checked_dispatch_enabled _ _ _ _ _ _ _ _ _ Hperms Htool Hen) in Hret.
  exists perms, tool. repeat split; [done..|].
  destruct (implemented_dec (tool_id tool)) as [Hi|Hn]; [done|].
  by rewrite executeTool_unimplemented in Hret.
Qed.

(** X2: The refusals of a registered agent's call: a tool id that is not
    registered or whose tool is disabled is reported as "not found or
    disabled" under the id asked for; an enabled tool without an
    implementation is reported as "not implemented" under the tool's own
    id. Neither reaches an implementation. *)
Theorem callTool_tool_refusals clk agentId toolId params context st perms :
  agentPermissions st !! agentId = Some perms →
  let r := callTool svc clk agentId toolId params context st in
  (enabled <$> jm_get toolId (tools st) ≠ Some true →
     r.1 = Thrown ("Tool not found or disabled: " +:+ toolId)
     ∧ dispatched r.2 = dispatched st)
  ∧ (∀ tool, jm_get toolId (tools st) = Some tool → enabled tool = true →
       ¬ implemented (tool_id tool) →
       r.1 = Thrown ("Tool not implemented: " +:+ tool_id tool)
       ∧ dispatched r.2 = dispatched st).
Proof.
  intros Hperms r. unfold r. rewrite callTool_outcome, callTool_dispatched. split.
  - intros Hoff. by rewrite (checked_dispatch_unavailable _ _ _ _ _ _ perms).
  - intros tool Htool Hen Hno.
    rewrite (checked_dispatch_enabled _ _ _ _ _ _ _ _ _ Hperms Htool Hen).
    by rewrite executeTool_unimplemented.
Qed.

(** X3: A call by an agent without a permission set is refused before the
    tool is even looked up, and dispatches nothing; but it is logged as a
    failed call with a [null] response, and it counts as a call of the
    tool registered under the id it named. *)
Theorem callTool_unregistered_agent_is_logged_and_counted clk agentId toolId params
    context st :
  agentPermissions st !! agentId = None →
  let r := callTool svc clk agentId toolId params context st in
  r.1 = Thrown "Agent not registered for MCP"
  ∧ dispatched r.2 = dispatched st
  ∧ (∃ record,
       last (callLogs r.2) = Some record
       ∧ log_agentId record = agentId ∧ log_toolId record = toolId
       ∧ success record = false ∧ response record = JNull
       ∧ error record = Some "Error: Agent not registered for MCP")
  ∧ (∀ tool, jm_get toolId (tools st) = Some tool →
       (totalCalls ∘ usage) <$> jm_get toolId (tools r.2)
       = Some (totalCalls (usage tool) + 1)).
Proof.
  intros Hperms r. unfold r.
  pose proof (checked_dispatch_unregistered clk agentId toolId params context st Hperms)
    as Hd.
  rewrite callTool_outcome, callTool_dispatched, callTool_callLogs, callTool_tools.
  rewrite Hd. simpl. repeat split.
  - destruct (keep_last_1000_snoc (callLogs st)
                (make_callLog clk agentId toolId params context
                   (Thrown "Agent not registered for MCP") st))
      as (kept & -> & _).
    eexists. rewrite last_snoc. done.
  - intros tool ->. by rewrite jm_get_set_eq.
Qed.

(** X4: Whatever the log held before, after a call it holds at most 1000
    records, the last of which is the record of this call. *)
Theorem callTool_log_is_bounded clk agentId toolId params context st :
  let r := callTool svc clk agentId toolId params context st in
  (length (callLogs r.2) ≤ 1000)%nat
  ∧ (log_id <$> last (callLogs r.2))
    = Some ("call_" +:+ pretty (t_callId clk) +:+ "_" +:+ random_suffix clk).
Proof.
  simpl. rewrite callTool_callLogs. simpl. split.
  - unfold keep_last_1000. case_bool_decide as Hlen.
    + rewrite length_drop. lia.
    + lia.
  - destruct (keep_last_1000_snoc (callLogs st)
                (make_callLog clk agentId toolId params context
                   (checked_dispatch svc clk agentId toolId params context st).1
                   (checked_dispatch svc clk agentId toolId params context st).2))
      as (kept & -> & _).
    by rewrite last_snoc.
Qed.

(** X5: While the log is below its cap, a call extends the calling agent's
    view of the log by exactly its own record and leaves every other
    agent's view as it was; the unfiltered view, which is also what an
    empty agent id gets, grows by one. *)
Theorem getCallLogs_after_call clk agentId toolId params context st :
  (length (callLogs st) < 1000)%nat →
  agentId ≠ "" →
  let r := callTool svc clk agentId toolId params context st in
  (∃ record,
      getCallLogs (Some agentId) r.2 = getCallLogs (Some agentId) st ++ [record]
      ∧ log_toolId record = toolId ∧ success record = is_returned r.1)
  ∧ (∀ other, other ≠ agentId → other ≠ "" →
       getCallLogs (Some other) r.2 = getCallLogs (Some other) st)
  ∧ getCallLogs (Some "") r.2 = getCallLogs None r.2
  ∧ length (getCallLogs None r.2) = S (length (getCallLogs None st)).
Proof.
  intros Hlen Hne r.
  assert (Hlogs : callLogs r.2
            = callLogs st
              ++ [make_callLog clk agentId toolId params context
                    (checked_dispatch svc clk agentId toolId params context st).1
                    (checked_dispatch svc clk agentId toolId params context st).2]).
  { unfold r. rewrite callTool_callLogs. simpl. unfold keep_last_1000.
    rewrite bool_decide_false; [done|]. rewrite length_app. simpl. lia. }
  assert (Htruthy : ∀ a, a ≠ "" → str_truthy (Some a) = true).
  { intros a Ha. simpl. by rewrite bool_decide_false. }
  split; [|split; [|split]].
  - eexists. unfold getCallLogs. rewrite (Htruthy _ Hne), Hlogs, filter_app. simpl.
    rewrite (filter_cons_True (λ l, log_agentId l = agentId)) by done.
    split; [done|]. split; [done|]. simpl. unfold r. by rewrite callTool_outcome.
  - intros other Hother Hnonempty. unfold getCallLogs.
    rewrite (Htruthy _ Hnonempty), Hlogs, filter_app. simpl.
    rewrite (filter_cons_False (λ l, log_agentId l = other)) by (simpl; congruence).
    by rewrite filter_nil, app_nil_r.
  - done.
  - unfold getCallLogs. simpl. rewrite Hlogs, length_app. simpl. lia.
Qed.
End GatewayRefusals.

(** ** The gateway: what the implementations are handed *)

Section GatewayDispatch.
Context (svc : Services).
Implicit Types (st : MCPState) (clk : CallClock) (params ctx : JsRecord)
  (agentId toolId : string).

Lemma js_prop_jm_get (k : string) (o : JsRecord) :
  js_prop k o = default JUndefined (jm_get k o).
Proof.
  induction o as [|[k' v] o IH]; simpl; [done|]. by case_bool_decide.
Qed.

Lemma assign_all_absent (k : string) ctx (base : JsRecord) :
  k ∉ ctx.*1 →
  jm_get k (fold_left (λ o kv, jm_set kv.1 kv.2 o) ctx base) = jm_get k base.
Proof.
  revert base. induction ctx as [|[k0 v0] ctx IH]; intros base Hk; [done|].
  simpl in *. rewrite not_elem_of_cons in Hk. destruct Hk as [Hne Hk].
  rewrite IH by done. by apply jm_get_set_ne.
Qed.

Lemma assign_all_present (k : string) (v : JsValue) ctx (base : JsRecord) :
  NoDup ctx.*1 → (k, v) ∈ ctx →
  jm_get k (fold_left (λ o kv, jm_set kv.1 kv.2 o) ctx base) = Some v.
Proof.
  revert base. induction ctx as [|[k0 v0] ctx IH]; intros base Hnd Hin.
  - by apply elem_of_nil in Hin.
  - simpl in *. apply NoDup_cons in Hnd as [Hk0 Hnd].
    apply elem_of_cons in Hin as [[= <- <-]|Hin].
    + rewrite assign_all_absent by done. apply jm_get_set_eq.
    + by apply IH.
Qed.

(** The agent id an implementation sees is the caller's, unless the
    call's context carries an [agentId] property of its own, which then
    replaces it. *)
Lemma spread_context_agentId agentId :
  js_prop "agentId" (spread_context agentId None) = JStr agentId
  ∧ (∀ ctx, "agentId" ∉ ctx.*1 →
       js_prop "agentId" (spread_context agentId (Some ctx)) = JStr agentId)
  ∧ (∀ ctx v, NoDup ctx.*1 → ("agentId", v) ∈ ctx →
       js_prop "agentId" (spread_context agentId (Some ctx)) = v).
Proof.
  unfold spread_context. split; [done|]. split.
  - intros ctx Hno. simpl. by rewrite js_prop_jm_get, assign_all_absent.
  - intros ctx v Hnd Hin. simpl.
    by rewrite js_prop_jm_get, (assign_all_present _ v).
Qed.

(** X6: An order is placed in the name the call's context gives: with an
    [agentId] property in the context, the trading engine receives that
    value as the ordering agent, while the call is logged under the
    calling agent. Without one, that is with no context at all or with a
    context object that has no [agentId] property, it receives the
    calling agent's id. The order type defaults to 'market'. *)
Theorem place_order_agent_comes_from_context clk agentId toolId params context st
    perms tool engine :
  placeOrder svc = Some engine →
  agentPermissions st !! agentId = Some perms →
  jm_get toolId (tools st) = Some tool →
  enabled tool = true →
  tool_id tool = "trading.place_order" →
  let r := callTool svc clk agentId toolId params context st in
  let placed_by who :=
    match engine [who; js_prop "symbol" params; js_prop "side" params;
                  js_prop "amount" params;
                  js_or (js_prop "type" params) (JStr "market");
                  js_prop "price" params] with
    | Thrown e => Thrown e
    | Returned order =>
        Returned (JObj [("success", JBool true); ("orderId", js_get "id" order);
                        ("order", order)])
    end in
  (log_agentId <$> last (callLogs r.2)) = Some agentId
  ∧ (context = None → r.1 = placed_by (JStr agentId))
  ∧ (∀ ctx, context = Some ctx → "agentId" ∉ ctx.*1 → r.1 = placed_by (JStr agentId))
  ∧ (∀ ctx v, context = Some ctx → NoDup ctx.*1 → ("agentId", v) ∈ ctx →
       r.1 = placed_by v).
Proof.
  intros Hengine Hperms Htool Hen Hid r placed_by.
  assert (Hout : r.1 = placed_by (js_prop "agentId" (spread_context agentId context))).
  { unfold r. rewrite callTool_outcome.
    rewrite (checked_dispatch_enabled _ _ _ _ _ _ _ _ _ Hperms Htool Hen).
    unfold executeTool, executeTradeOrder, optional_call, placed_by.
    rewrite Hid, Hengine. simpl. by destruct (engine _). }
  destruct (spread_context_agentId agentId) as (Hnone & Hwithout & Hsome).
  split; [|split; [|split]].
  - unfold r. rewrite callTool_callLogs. simpl.
    destruct (keep_last_1000_snoc (callLogs st)
                (make_callLog clk agentId toolId params context
                   (checked_dispatch svc clk agentId toolId params context st).1
                   (checked_dispatch svc clk agentId toolId params context st).2))
      as (kept & -> & _).
    by rewrite last_snoc.
  - intros ->. by rewrite Hout, Hnone.
  - intros ctx -> Hno. by rewrite Hout, (Hwithout ctx).
  - intros ctx v -> Hnd Hin. by rewrite Hout, (Hsome ctx v).
Qed.

(** X7: With the trading engine (or the todo service) absent, the order tool
    (or the todo tool) still returns a result whose [success] is [true];
    its id and payload are [undefined]. The call is dispatched and logged
    as a success. *)
Theorem absent_backend_reports_success clk agentId toolId params context st perms tool :
  agentPermissions st !! agentId = Some perms →
  jm_get toolId (tools st) = Some tool →
  enabled tool = true →
  let r := callTool svc clk agentId toolId params context st in
  (tool_id tool = "trading.place_order" → placeOrder svc = None →
     r.1 = Returned (JObj [("success", JBool true); ("orderId", JUndefined);
                           ("order", JUndefined)])
     ∧ (success <$> last (callLogs r.2)) = Some true)
  ∧ (tool_id tool = "system.create_todo" → createTodoItem svc = None →
     r.1 = Returned (JObj [("success", JBool true); ("todoId", JUndefined);
                           ("todo", JUndefined)])
     ∧ (success <$> last (callLogs r.2)) = Some true).
Proof.
  intros Hperms Htool Hen r.
  assert (Hlast : (success <$> last (callLogs r.2)) = Some (is_returned r.1)).
  { unfold r. rewrite callTool_callLogs, callTool_outcome. simpl.
    destruct (keep_last_1000_snoc (callLogs st)
                (make_callLog clk agentId toolId params context
                   (checked_dispatch svc clk agentId toolId params context st).1
                   (checked_dispatch svc clk agentId toolId params context st).2))
      as (kept & -> & _).
    by rewrite last_snoc. }
  assert (Hout : r.1 = (executeTool svc tool params (spread_context agentId context)
                          (t_impl clk) st).1).
  { unfold r. rewrite callTool_outcome.
    by rewrite (checked_dispatch_enabled _ _ _ _ _ _ _ _ _ Hperms Htool Hen). }
  split; intros Hid Habsent; rewrite Hlast, Hout;
    unfold executeTool, executeTradeOrder, createTodo, optional_call;
    rewrite Hid, Habsent; simpl; done.
Qed.
End GatewayDispatch.

(** ** Activation, deactivation and the session a call is attributed to *)

Section Lifecycle.
Context (svc : Services).
Implicit Types (st : MCPState) (agentId : string).

Lemma activate_registers agentId t_id t_start st agent_id :
  getAgent svc agentId = Some agent_id →
  let st' := (activateForAgent svc agentId t_id t_start st).2 in
  tools st' = tools st
  ∧ agentPermissions st' = <[agentId := createAgentPermissions agent_id st]> (agentPermissions st).
Proof. unfold activateForAgent. by intros ->. Qed.

(** X8: The permission set of an activation grants whole categories: every
    enabled tool of category trading, analysis, system or data is
    available to the agent, whatever permissions the tool itself asks for;
    and only registered, enabled tools are available. *)
Theorem activation_grants_whole_categories agentId t_id t_start st agent_id tool :
  getAgent svc agentId = Some agent_id →
  let st' := (activateForAgent svc agentId t_id t_start st).2 in
  (tool ∈ jm_values (tools st) → enabled tool = true →
   category tool ≠ defi → category tool ≠ communication →
   tool ∈ getAvailableTools agentId st')
  ∧ (tool ∈ getAvailableTools agentId st' →
     tool ∈ jm_values (tools st) ∧ enabled tool = true).
Proof.
  intros Hknown st'.
  destruct (activate_registers agentId t_id t_start st agent_id Hknown) as [Htools Hperms].
  fold st' in Htools, Hperms.
  unfold getAvailableTools. rewrite Hperms, lookup_insert_eq, Htools. split.
  - intros Hin Hen Hdefi Hcomm. apply list_elem_of_filter. split; [|done].
    rewrite Hen. unfold permits. simpl.
    replace (includes [] (tool_id tool)) with false; cycle 1.
    { symmetry. apply bool_decide_eq_false. apply not_elem_of_nil. }
    rewrite andb_true_r. apply orb_true_iff. right.
    by destruct (category tool).
  - intros [Hp Hin]%list_elem_of_filter. split; [done|].
    by destruct (enabled tool).
Qed.

(** X9: [requireApproval] is not consulted: an activation lists the order
    tool as requiring approval, and a call of it by the activated agent is
    dispatched to the trading engine all the same. *)
Theorem requireApproval_does_not_gate_calls agentId t_id t_start clk toolId params
    context st agent_id tool :
  getAgent svc agentId = Some agent_id →
  jm_get toolId (tools st) = Some tool →
  enabled tool = true →
  tool_id tool = "trading.place_order" →
  let st' := (activateForAgent svc agentId t_id t_start st).2 in
  let r := callTool svc clk agentId toolId params context st' in
  (∃ perms, agentPermissions st' !! agentId = Some perms
            ∧ tool_id tool ∈ requireApproval (restrictions perms))
  ∧ dispatched r.2 = dispatched st ++ [("trading.place_order", params)].
Proof.
  intros Hknown Htool Hen Hid st' r.
  destruct (activate_registers agentId t_id t_start st agent_id Hknown) as [Htools Hperms].
  fold st' in Htools, Hperms.
  assert (Hp : agentPermissions st' !! agentId = Some (createAgentPermissions agent_id st))
    by (by rewrite Hperms, lookup_insert_eq).
  split.
  - eexists. split; [exact Hp|]. rewrite Hid. simpl. apply list_elem_of_here.
  - unfold r. rewrite callTool_dispatched.
    rewrite (checked_dispatch_enabled svc _ _ _ _ _ _ _ tool Hp) by (by rewrite ?Htools).
    rewrite executeTool_implemented by (left; done).
    rewrite Hid. unfold st', activateForAgent. by rewrite Hknown.
Qed.

Lemma close_sessions_keys agentId (now : nat → Z) k (m : JsMap MCPSession) :
  (close_sessions agentId now k m).*1 = m.*1.
Proof.
  revert k. induction m as [|[key s] m IH]; intros k; [done|].
  cbn [close_sessions snd]. case_bool_decide; rewrite !fmap_cons, IH; done.
Qed.

(** The agent's sessions after the loop, in the order of the map: the
    [i]-th one (from [k] on) is closed with the [i]-th reading. *)
Lemma close_sessions_own agentId (now : nat → Z) k (m : JsMap MCPSession) :
  filter (λ s, sess_agentId s = agentId) (jm_values (close_sessions agentId now k m))
  = imap (λ i s, close_session (now (k + i)%nat) s)
      (filter (λ s, sess_agentId s = agentId) (jm_values m)).
Proof.
  unfold jm_values. revert k. induction m as [|[key s] m IH]; intros k; [done|].
  cbn [close_sessions snd]. case_bool_decide as Hs; rewrite !fmap_cons; cbn [snd].
  - rewrite !filter_cons_True by done. rewrite imap_cons, IH, Nat.add_0_r.
    f_equal. apply imap_ext. intros i x _. simpl. by rewrite Nat.add_succ_r.
  - rewrite !filter_cons_False by done. apply IH.
Qed.

Lemma close_sessions_others agentId (now : nat → Z) k (m : JsMap MCPSession) :
  filter (λ s, sess_agentId s ≠ agentId) (jm_values (close_sessions agentId now k m))
  = filter (λ s, sess_agentId s ≠ agentId) (jm_values m).
Proof.
  unfold jm_values. revert k. induction m as [|[key s] m IH]; intros k; [done|].
  cbn [close_sessions snd]. case_bool_decide as Hs; rewrite !fmap_cons; cbn [snd].
  - rewrite !filter_cons_False by (simpl; tauto). apply IH.
  - rewrite !filter_cons_True by done. by rewrite IH.
Qed.

(** X10: Deactivation removes the agent's permission set and no other, keeps
    every session under its key, and marks every session of the agent
    Completed, whatever its status was before (also one that had ended in
    error or was completed earlier), stamping each with the clock reading
    taken for it: the agent's [i]-th session in the order of the session
    map gets the [i]-th reading as [endTime]. Sessions of other agents are
    not touched. *)
Theorem deactivation_closes_all_sessions agentId (now : nat → Z) st :
  let st' := deactivateForAgent agentId now st in
  agentPermissions st' !! agentId = None
  ∧ (∀ other, other ≠ agentId →
       agentPermissions st' !! other = agentPermissions st !! other)
  ∧ (sessions st').*1 = (sessions st).*1
  ∧ sessions_of agentId st'
    = imap (λ i s, close_session (now i) s) (sessions_of agentId st)
  ∧ (∀ s, s ∈ jm_values (sessions st') → sess_agentId s = agentId →
       sess_status s = SessCompleted
       ∧ ∃ i, (i < length (sessions_of agentId st))%nat ∧ endTime s = Some (now i))
  ∧ (∀ s, sess_agentId s ≠ agentId →
       s ∈ jm_values (sessions st') ↔ s ∈ jm_values (sessions st))
  ∧ tools st' = tools st ∧ callLogs st' = callLogs st.
Proof.
  intros st'.
  assert (Hown : sessions_of agentId st'
                 = imap (λ i s, close_session (now i) s) (sessions_of agentId st))
    by apply (close_sessions_own agentId now 0).
  split; [apply lookup_delete_eq|].
  split; [intros other Hne; by apply lookup_delete_ne|].
  split; [apply close_sessions_keys|]. split; [exact Hown|].
  split; [|split; [|done]].
  - intros s Hin Hs.
    assert (Hmine : s ∈ sessions_of agentId st') by (by apply list_elem_of_filter).
    rewrite Hown in Hmine. apply elem_of_lookup_imap in Hmine as (i & s0 & -> & Hi).
    split; [done|]. exists i. split; [|done]. by apply lookup_lt_Some in Hi.
  - intros s Hs.
    pose proof (close_sessions_others agentId now 0 (sessions st)) as Hothers.
    split; intros Hin.
    + assert (Hf : s ∈ filter (λ s, sess_agentId s ≠ agentId) (jm_values (sessions st')))
        by (by apply list_elem_of_filter).
      unfold st' in Hf. simpl in Hf. rewrite Hothers in Hf.
      by apply list_elem_of_filter in Hf as [_ ?].
    + assert (Hf : s ∈ filter (λ s, sess_agentId s ≠ agentId) (jm_values (sessions st)))
        by (by apply list_elem_of_filter).
      rewrite <- Hothers in Hf. by apply list_elem_of_filter in Hf as [_ ?].
Qed.

(** X11: Deactivation clears the rate-limit entries whose key starts with
    the agent's id followed by a colon (so also those of an agent whose id
    extends it that way) and keeps all others. *)
Theorem deactivation_clears_rate_limits_by_prefix agentId now st (key : string) :
  rateLimits (deactivateForAgent agentId now st) !! key
  = if String.prefix (agentId +:+ ":") key then None else rateLimits st !! key.
Proof.
  simpl. destruct (String.prefix (agentId +:+ ":") key) eqn:Hp.
  - apply map_lookup_filter_None. right. intros x _. simpl. congruence.
  - destruct (rateLimits st !! key) as [x|] eqn:Hk.
    + by apply map_lookup_filter_Some.
    + apply map_lookup_filter_None. by left.
Qed.
End Lifecycle.

Section Attribution.
Context (svc : Services).
Implicit Types (st : MCPState) (agentId : string).




Lemma activate_keeps_registered agentId other t_id t_start st :
  is_Some (agentPermissions st !! other) →
  is_Some (agentPermissions (activateForAgent svc agentId t_id t_start st).2 !! other).
Proof.
  intros Hreg. unfold activateForAgent.
  destruct (getAgent svc agentId) as [agent_id|]; [|done]. simpl.
  destruct (decide (agentId = other)) as [->|Hne].
  - rewrite lookup_insert_eq. by eexists.
  - by rewrite lookup_insert_ne.
Qed.

Lemma activate_each_keeps_registered (agents : list ListedAgent) other st :
  is_Some (agentPermissions st !! other) →
  is_Some (agentPermissions (activate_each svc agents st).2 !! other).
Proof.
  revert st. induction agents as [|a agents IH]; intros st Hreg; [done|].
  simpl.
  pose proof (activate_keeps_registered (la_id a) other (la_t_id a) (la_t_start a) st Hreg)
    as Hreg'.
  destruct (activateForAgent svc (la_id a) (la_t_id a) (la_t_start a) st)
    as [[ok errors] st1]. simpl in Hreg'.
  specialize (IH st1 Hreg').
  by destruct (activate_each svc agents st1) as [results st2].
Qed.

(** One step of the loop, with the activation's result spelt out. *)
Lemma activate_each_cons (a : ListedAgent) agents st :
  let known := bool_decide (is_Some (getAgent svc (la_id a))) in
  let st1 := (activateForAgent svc (la_id a) (la_t_id a) (la_t_start a) st).2 in
  ∃ errors caught,
    (activate_each svc (a :: agents) st).1
    = {| res_agentId := la_id a; res_success := known; res_errors := errors |}
        :: caught ++ (activate_each svc agents st1).1
    ∧ (activate_each svc (a :: agents) st).2 = (activate_each svc agents st1).2
    ∧ res_agentId <$> caught = (if name_throws a then [la_id a] else [])
    ∧ res_success <$> caught = (if name_throws a then [false] else []).
Proof.
  simpl. unfold activateForAgent, name_throws.
  destruct (getAgent svc (la_id a)) as [agent_id|] eqn:Hknown; simpl;
    destruct (activate_each svc agents _) as [results st2]; simpl.
  - eexists _, _. split; [done|]. split; [done|]. by destruct (la_name a).
  - eexists _, _. split; [done|]. split; [done|]. by destruct (la_name a).
Qed.

(** X13: The bulk activation attempts every listed agent. For each record,
    in order, it reports the result of the activation, successful exactly
    when the persistence service knows the agent, followed by a second,
    failed result for the same id when the record has no [config] to read
    the name from. So there is one result per agent when every record has
    a [config], the success count is the number of known agents listed,
    and neither an unknown agent nor a record without [config] keeps any
    other listed agent from ending up registered. *)
Theorem activateForAllAgents_attempts_every_agent (agents : list ListedAgent) st :
  let r := activate_each svc agents st in
  let known a := is_Some (getAgent svc (la_id a)) in
  res_agentId <$> r.1
  = agents ≫= (λ a, la_id a :: (if name_throws a then [la_id a] else []))
  ∧ res_success <$> r.1
    = agents ≫= (λ a, bool_decide (known a) :: (if name_throws a then [false] else []))
  ∧ length r.1 = (length agents + length (filter (λ a, name_throws a = true) agents))%nat
  ∧ successCount r.1 = length (filter known agents)
  ∧ (∀ a, a ∈ agents → known a → is_Some (agentPermissions r.2 !! la_id a))
  ∧ tools r.2 = tools st.
Proof.
  intros r known. subst r. revert st. induction agents as [|a agents IH]; intros st.
  { simpl. repeat split; [done..|]. intros a Ha. by apply elem_of_nil in Ha. }
  destruct (activate_each_cons a agents st) as (errors & caught & -> & -> & Hids & Hoks).
  specialize (IH (activateForAgent svc (la_id a) (la_t_id a) (la_t_start a) st).2).
  destruct IH as (IHids & IHoks & IHlen & IHcount & IHreg & IHtools).
  split; [|split; [|split; [|split; [|split]]]].
  - rewrite fmap_cons, fmap_app, Hids, IHids, bind_cons. by destruct (name_throws a).
  - rewrite fmap_cons, fmap_app, Hoks, IHoks, bind_cons. by destruct (name_throws a).
  - cbn [length]. rewrite length_app, IHlen.
    apply (f_equal length) in Hids. rewrite length_fmap in Hids. rewrite Hids.
    destruct (name_throws a) eqn:Hthrows.
    + rewrite filter_cons_True by done. simpl. lia.
    + rewrite filter_cons_False by (by rewrite Hthrows). simpl. lia.
  - unfold successCount in *.
    assert (Hcaught : filter (λ r, res_success r = true) caught = []).
    { destruct (name_throws a); destruct caught as [|c [|c' caught]]; try done.
      injection Hoks as Hc. rewrite filter_cons_False by (by rewrite Hc). done. }
    destruct (decide (known a)) as [Hknown|Hknown].
    + rewrite filter_cons_True by (by apply bool_decide_eq_true).
      rewrite filter_app, Hcaught, (filter_cons_True known) by done.
      simpl. by rewrite IHcount.
    + rewrite filter_cons_False
        by (simpl; rewrite bool_decide_false by done; done).
      rewrite filter_app, Hcaught, (filter_cons_False known) by done.
      simpl. by rewrite IHcount.
  - intros b [->|Hb]%elem_of_cons Hb'; [|by apply IHreg].
    apply activate_each_keeps_registered. destruct Hb' as [agent_id Hknown].
    unfold activateForAgent. rewrite Hknown. simpl. rewrite lookup_insert_eq. by eexists.
  - rewrite IHtools. unfold activateForAgent. by destruct (getAgent svc (la_id a)).
Qed.
End Attribution.

(** ** Statistics *)

Section Statistics.
Implicit Types (st : MCPState) (agentId toolId : string) (u : ToolUsage).

Lemma success_partition (calls : list MCPCallLog) :
  (length (filter (λ c, success c = true) calls)
   + length (filter (λ c, success c = false) calls))%nat = length calls.
Proof.
  induction calls as [|c calls IH]; [done|].
  destruct (success c) eqn:Hc.
  - rewrite filter_cons_True, filter_cons_False by congruence. simpl. lia.
  - rewrite filter_cons_False, filter_cons_True by congruence. simpl. lia.
Qed.

Lemma ratio_in_unit_interval (s n : Z) :
  0 ≤ s ≤ n → 0 < n → (0 <= inject_Z s / inject_Z n <= 1)%Q.
Proof.
  intros [Hs Hsn] Hn.
  assert (Hpos : (0 < inject_Z n)%Q) by (by rewrite (Zlt_Qlt 0 n) in Hn).
  split.
  - apply Qle_shift_div_l; [done|]. rewrite Qmult_0_l. by rewrite (Zle_Qle 0 s) in Hs.
  - apply Qle_shift_div_r; [done|]. rewrite Qmult_1_l. by rewrite (Zle_Qle s n) in Hsn.
Qed.

(** X14: The per-agent statistics are consistent: the calls split into
    successes and failures, the success rate is a proportion (between 0
    and 1, unlike a tool's [usage.successRate]), at most the last 10 calls
    of the agent are reported as recent, there are no more Active sessions
    than sessions, and an agent without a permission set has no available
    tools. *)
Theorem getAgentStats_is_consistent agentId st :
  let s := getAgentStats agentId st in
  stats_totalCalls s = stats_successfulCalls s + stats_failedCalls s
  ∧ (0 <= stats_successRate s <= 1)%Q
  ∧ (length (recentCalls s) ≤ 10)%nat
  ∧ recentCalls s `suffix_of` filter (λ l, log_agentId l = agentId) (callLogs st)
  ∧ stats_activeSessions s ≤ stats_totalSessions s
  ∧ (agentPermissions st !! agentId = None → stats_availableTools s = 0).
Proof.
  simpl. set (calls := filter (λ l, log_agentId l = agentId) (callLogs st)).
  pose proof (success_partition calls) as Hsplit.
  pose proof (length_filter (λ c, success c = true) calls) as Hle.
  split; [lia|]. split; [|split; [|split; [|split]]].
  - case_bool_decide as Hn.
    + apply ratio_in_unit_interval; lia.
    + done.
  - rewrite length_drop. lia.
  - apply suffix_drop.
  - unfold activeSessions.
    pose proof (length_filter (λ s, is_active s = true) (sessions_of agentId st)). lia.
  - intros Hnone. unfold getAvailableTools. by rewrite Hnone.
Qed.

Lemma record_usages_tool toolId (calls : list (bool * Z * Z)) st tool :
  jm_get toolId (tools st) = Some tool →
  jm_get toolId (tools (record_usages toolId calls st))
  = Some (with_usage
            (fold_left (λ u c, bump_usage c.1.1 c.1.2 c.2 u) calls (usage tool)) tool).
Proof.
  revert st tool. induction calls as [|c calls IH]; intros st tool Htool.
  - simpl. rewrite Htool. by destruct tool.
  - change (record_usages toolId (c :: calls) st)
      with (record_usages toolId calls (updateToolUsage toolId c.1.1 c.1.2 c.2 st)).
    rewrite (IH _ (with_usage (bump_usage c.1.1 c.1.2 c.2 (usage tool)) tool)).
    + done.
    + unfold updateToolUsage. rewrite Htool. simpl. apply jm_get_set_eq.
Qed.

Lemma usages_fold (calls : list (bool * Z * Z)) u :
  let u' := fold_left (λ u c, bump_usage c.1.1 c.1.2 c.2 u) calls u in
  totalCalls u' = totalCalls u + Z.of_nat (length calls)
  ∧ lastUsed u' = default (lastUsed u) (snd <$> last calls).
Proof.
  induction calls as [|[[ok dur] now] calls IH] using rev_ind; [simpl; split; [lia|done]|].
  cbv zeta in *. rewrite fold_left_app, last_snoc, length_app. simpl.
  destruct IH as [-> _]. split; [lia|done].
Qed.

Lemma record_usages_others toolId other (calls : list (bool * Z * Z)) st :
  other ≠ toolId →
  jm_get other (tools (record_usages toolId calls st)) = jm_get other (tools st).
Proof.
  intros Hne. revert st. induction calls as [|c calls IH]; intros st; [done|].
  change (record_usages toolId (c :: calls) st)
    with (record_usages toolId calls (updateToolUsage toolId c.1.1 c.1.2 c.2 st)).
  rewrite IH. unfold updateToolUsage. destruct (jm_get toolId (tools st)); [|done].
  simpl. by apply jm_get_set_ne.
Qed.

(** X15: After any number of usage updates of one tool, its [totalCalls] has
    grown by their number and its [lastUsed] is the clock reading of the
    last update. The tool's definition is otherwise untouched, and so is
    every other tool. *)
Theorem tool_usage_after_calls toolId (calls : list (bool * Z * Z)) st tool :
  jm_get toolId (tools st) = Some tool →
  let st' := record_usages toolId calls st in
  (∃ u',
     jm_get toolId (tools st') = Some (with_usage u' tool)
     ∧ totalCalls u' = totalCalls (usage tool) + Z.of_nat (length calls)
     ∧ lastUsed u' = default (lastUsed (usage tool)) (snd <$> last calls))
  ∧ (∀ other, other ≠ toolId → jm_get other (tools st') = jm_get other (tools st)).
Proof.
  intros Htool st'. split.
  - eexists. split; [by apply record_usages_tool|]. apply usages_fold.
  - intros other Hne. by apply record_usages_others.
Qed.
End Statistics.

(** ** The decision loop: start, stop and pause *)

Section StartStop.
Context (be : Backend).
Implicit Types (st : LoopState) (agentId : string).

(** X16: Stopping is idempotent on the loop's own state: a second stop finds
    no timer to cancel and changes no agent; it only posts the 'stopped'
    status once more. Stopping an agent the loop does not track changes no
    agent at all. *)
Theorem stopAgent_twice agentId st :
  let once := (stopAgent be agentId st).2 in
  let twice := (stopAgent be agentId once).2 in
  activeLoops once !! agentId = None
  ∧ (status <$> agentStates once !! agentId)
    = (λ _, AgStopped) <$> agentStates st !! agentId
  ∧ activeLoops twice = activeLoops once
  ∧ agentStates twice = agentStates once
  ∧ statusPosts twice = statusPosts once ++ [(agentId, AgStopped)]
  ∧ (agentStates st !! agentId = None → agentStates once = agentStates st).
Proof.
  intros once twice.
  destruct (stopAgent_fields be agentId st) as (_ & Hl & Hs & Hp).
  destruct (stopAgent_fields be agentId once) as (_ & Hl' & Hs' & Hp').
  fold once in Hl, Hs, Hp. fold twice in Hl', Hs', Hp'.
  rewrite Hl', Hs', Hp', Hl, Hs.
  split; [apply lookup_delete_eq|].
  split; [rewrite lookup_alter_eq; by destruct (agentStates st !! agentId)|].
  split; [by rewrite delete_delete_eq|]. split; [|split; [done|]].
  - apply map_eq. intros id. destruct (decide (id = agentId)) as [->|Hne].
    + rewrite !lookup_alter_eq. by destruct (agentStates st !! agentId).
    + by rewrite !lookup_alter_ne.
  - intros Hnone. apply map_eq. intros id.
    destruct (decide (id = agentId)) as [->|Hne].
    + by rewrite lookup_alter_eq, Hnone.
    + by rewrite lookup_alter_ne.
Qed.

(** X17: A start returns exactly when the agent can be loaded and its two
    status saves ('stopped', then 'active') go through. A start that
    throws because no agent could be loaded has touched neither the timers
    nor the agents: a loop already running for that id keeps running, and
    only the 'error' status is posted. A start that throws on the
    'stopped' save has already cancelled the timer the id had and marked
    the tracked agent Stopped, and arms nothing. A start that throws on the
    'active' save has already armed the timer and tracks the agent as
    Active, although 'error' is the status posted last. *)
Theorem startAgent_outcomes agentId st :
  let r := startAgent be agentId st in
  let n := length (statusPosts st) in
  (is_returned r.1 = true ↔
     (∃ agent, loadAgent be agentId = Returned (Some agent))
     ∧ is_returned (saveStatus be n agentId AgStopped) = true
     ∧ is_returned (saveStatus be (S n) agentId AgActive) = true)
  ∧ ((∀ agent, loadAgent be agentId ≠ Returned (Some agent)) →
     activeLoops r.2 = activeLoops st ∧ agentStates r.2 = agentStates st
     ∧ statusPosts r.2 = statusPosts st ++ [(agentId, AgError)])
  ∧ (∀ agent,
       loadAgent be agentId = Returned (Some agent) →
       is_returned (saveStatus be n agentId AgStopped) = false →
       activeLoops r.2 = delete agentId (activeLoops st)
       ∧ agentStates r.2 = alter (with_status AgStopped) agentId (agentStates st)
       ∧ statusPosts r.2 = statusPosts st ++ [(agentId, AgStopped); (agentId, AgError)])
  ∧ (∀ agent,
       loadAgent be agentId = Returned (Some agent) →
       is_returned (saveStatus be n agentId AgStopped) = true →
       is_returned (saveStatus be (S n) agentId AgActive) = false →
       activeLoops r.2 !! agentId
       = Some {| timer_agent := agent; timer_interval := interval_of agent |}
       ∧ agentStates r.2 !! agentId = Some (with_status AgActive agent)
       ∧ statusPosts r.2
         = statusPosts st ++ [(agentId, AgStopped); (agentId, AgActive); (agentId, AgError)]).
Proof.
  intros r n. subst r. split; [|split; [|split]].
  - destruct (loadAgent be agentId) as [[agent|]|e] eqn:Hload.
    + rewrite (startAgent_loaded be agentId st agent Hload). fold n.
      destruct (saveStatus be n agentId AgStopped) as [[]|e1].
      * destruct (saveStatus be (S n) agentId AgActive) as [[]|e2].
        -- simpl. split; [|done]. intros _. split; [by eexists|done].
        -- rewrite (proj1 (start_failed_fields be e2 agentId _)).
           split; [done|]. by intros (_ & _ & ?).
      * rewrite (proj1 (start_failed_fields be e1 agentId _)).
        split; [done|]. by intros (_ & ? & _).
    + unfold startAgent. rewrite Hload.
      rewrite (proj1 (start_failed_fields be _ agentId st)).
      split; [done|]. by intros [[agent ?] _].
    + unfold startAgent. rewrite Hload.
      rewrite (proj1 (start_failed_fields be _ agentId st)).
      split; [done|]. by intros [[agent ?] _].
  - intros Hnone. unfold startAgent.
    destruct (loadAgent be agentId) as [[agent|]|e] eqn:Hload;
      [by destruct (Hnone agent)|..];
      by destruct (start_failed_fields be
                     (match loadAgent be agentId with
                      | Thrown e => e
                      | _ => "Agent " +:+ agentId +:+ " not found"
                      end) agentId st) as (_ & Hl & Hs & Hp);
      rewrite Hload in Hl, Hs, Hp.
  - intros agent Hload Hthrow.
    rewrite (startAgent_loaded be agentId st agent Hload). fold n.
    destruct (saveStatus be n agentId AgStopped) as [[]|e1]; [done|].
    destruct (start_failed_fields be e1 agentId (stopAgent be agentId st).2)
      as (_ & -> & -> & ->).
    destruct (stopAgent_fields be agentId st) as (_ & -> & -> & ->).
    by rewrite <- app_assoc.
  - intros agent Hload Hstopped Hthrow.
    rewrite (startAgent_loaded be agentId st agent Hload). fold n.
    destruct (saveStatus be n agentId AgStopped) as [[]|e1]; [|done].
    destruct (saveStatus be (S n) agentId AgActive) as [[]|e2]; [done|].
    destruct (start_failed_fields be e2 agentId
                (updateAgentStatus be agentId AgActive
                   (arm agentId agent (stopAgent be agentId st).2)).2)
      as (_ & -> & -> & ->).
    destruct (armed_fields be agentId st agent) as (-> & -> & ->).
    rewrite !lookup_insert_eq. by rewrite <- app_assoc.
Qed.

(** X18: A start that returns arms exactly one timer for the agent, on the
    loaded agent and with its configured interval (30000 when that is 0,
    so never 0), and tracks the loaded agent as Active, replacing whatever
    the loop had for that id (its local counters included). No other agent
    is touched, and the statuses posted are 'stopped', then 'active'. *)
Theorem startAgent_arms_the_loaded_agent agentId st agent :
  loadAgent be agentId = Returned (Some agent) →
  is_returned (startAgent be agentId st).1 = true →
  let st' := (startAgent be agentId st).2 in
  activeLoops st' !! agentId
  = Some {| timer_agent := agent; timer_interval := interval_of agent |}
  ∧ interval_of agent ≠ 0
  ∧ (decisionInterval (config agent) ≠ 0 →
     interval_of agent = decisionInterval (config agent))
  ∧ agentStates st' !! agentId = Some (with_status AgActive agent)
  ∧ (∀ other, other ≠ agentId →
       activeLoops st' !! other = activeLoops st !! other
       ∧ agentStates st' !! other = agentStates st !! other)
  ∧ statusPosts st' = statusPosts st ++ [(agentId, AgStopped); (agentId, AgActive)].
Proof.
  intros Hload. rewrite (startAgent_loaded be agentId st agent Hload).
  destruct (saveStatus be (length (statusPosts st)) agentId AgStopped) as [[]|e1];
    [|by rewrite (proj1 (start_failed_fields be e1 agentId _))].
  destruct (saveStatus be (S (length (statusPosts st))) agentId AgActive) as [[]|e2];
    [|by rewrite (proj1 (start_failed_fields be e2 agentId _))].
  intros _. cbv zeta. cbn [snd].
  destruct (armed_fields be agentId st agent) as (-> & -> & ->).
  split; [apply lookup_insert_eq|].
  split; [unfold interval_of; case_bool_decide; [done|done]|].
  split; [intros Hnz; unfold interval_of; by rewrite bool_decide_false|].
  split; [apply lookup_insert_eq|]. split; [|done].
  intros other Hne. rewrite !lookup_insert_ne by done.
  by rewrite lookup_delete_ne, lookup_alter_ne.
Qed.

(** X19: Pausing cancels the agent's timer, so no later tick runs a cycle for
    it, and marks a tracked agent Paused without touching its counters or
    any other agent, whether or not its status save goes through; a later
    start that can load the agent and whose 'stopped' status save goes
    through arms a timer again. *)
Theorem pauseAgent_suspends_until_start agentId st :
  let st' := (pauseAgent be agentId st).2 in
  activeLoops st' !! agentId = None
  ∧ (∀ be' inps, ticks be' inps agentId st' = st')
  ∧ agentStates st' !! agentId = with_status AgPaused <$> agentStates st !! agentId
  ∧ (∀ other, other ≠ agentId →
       activeLoops st' !! other = activeLoops st !! other
       ∧ agentStates st' !! other = agentStates st !! other)
  ∧ (∀ be' agent,
       loadAgent be' agentId = Returned (Some agent) →
       is_returned (saveStatus be' (length (statusPosts st')) agentId AgStopped) = true →
       timer_agent <$> activeLoops (startAgent be' agentId st').2 !! agentId = Some agent).
Proof.
  destruct (pauseAgent_fields be agentId st) as (_ & Hl & Hs & Hp). cbv zeta.
  assert (Hgone : activeLoops (pauseAgent be agentId st).2 !! agentId = None)
    by (rewrite Hl; apply lookup_delete_eq).
  split; [done|]. split; [intros be' inps; by apply ticks_unarmed|].
  split; [by rewrite Hs, lookup_alter_eq|]. split.
  - intros other Hne. by rewrite Hl, Hs, lookup_delete_ne, lookup_alter_ne.
  - intros be' agent Hload Hsaved.
    rewrite (startAgent_loaded be' agentId _ agent Hload).
    destruct (saveStatus be' _ agentId AgStopped) as [[]|e1]; [|done].
    destruct (armed_fields be' agentId (pauseAgent be agentId st).2 agent)
      as (Harmed & _ & _).
    destruct (saveStatus be' _ agentId AgActive) as [[]|e2].
    + cbn [snd]. by rewrite Harmed, lookup_insert_eq.
    + destruct (start_failed_fields be' e2 agentId
                  (updateAgentStatus be' agentId AgActive
                     (arm agentId agent
                        (stopAgent be' agentId (pauseAgent be agentId st).2).2)).2)
        as (_ & -> & _ & _).
      by rewrite Harmed, lookup_insert_eq.
Qed.
End StartStop.

(** ** The decision loop: what ticks can and cannot do *)

Section Ticks.
Context (be : Backend).
Implicit Types (st : LoopState) (agentId : string) (inp : CycleInputs).

Lemma evolves_refl a : evolves a a.
Proof. unfold evolves. repeat split; try lia. by left. Qed.

Lemma evolves_trans a b c : evolves a b → evolves b c → evolves a c.
Proof.
  unfold evolves. intros (? & ? & ? & ? & ? & Hs) (? & ? & ? & ? & ? & Hs').
  repeat split; try congruence; try lia.
  destruct Hs' as [->|[->| ->]]; tauto.
Qed.

Lemma loop_evolves_refl st : loop_evolves st st.
Proof.
  split; [|split].
  - intros id a Ha. exists a. split; [done|apply evolves_refl].
  - done.
  - intros id. by right.
Qed.

Lemma loop_evolves_trans st1 st2 st3 :
  loop_evolves st1 st2 → loop_evolves st2 st3 → loop_evolves st1 st3.
Proof.
  intros (Ha & Hn & Hl) (Ha' & Hn' & Hl'). split; [|split].
  - intros id a Hid. destruct (Ha id a Hid) as (b & Hb & Hab).
    destruct (Ha' id b Hb) as (c & Hc & Hbc).
    exists c. split; [done|]. by eapply evolves_trans.
  - intros id Hid. by apply Hn', Hn.
  - intros id. destruct (Hl' id) as [?|H23]; [by left|].
    rewrite H23. apply Hl.
Qed.

(** A step that rewrites one tracked agent in place, and at most cancels
    that agent's timer. *)
Lemma in_place_evolves (f : Agent → Agent) agentId st st' :
  agentStates st' = alter f agentId (agentStates st) →
  (∀ a, evolves a (f a)) →
  activeLoops st' = activeLoops st ∨ activeLoops st' = delete agentId (activeLoops st) →
  loop_evolves st st'
  ∧ (∀ other, other ≠ agentId →
       agentStates st' !! other = agentStates st !! other
       ∧ activeLoops st' !! other = activeLoops st !! other).
Proof.
  intros Hs Hf Hl. split; [split; [|split]|].
  - intros id a Hid. rewrite Hs. destruct (decide (id = agentId)) as [->|Hne].
    + rewrite lookup_alter_eq, Hid. simpl. by eexists.
    + rewrite lookup_alter_ne, Hid by done. exists a. split; [done|apply evolves_refl].
  - intros id Hid. rewrite Hs. destruct (decide (id = agentId)) as [->|Hne].
    + by rewrite lookup_alter_eq, Hid.
    + by rewrite lookup_alter_ne.
  - intros id. destruct Hl as [Hl|Hl]; rewrite Hl; [by right|].
    destruct (decide (id = agentId)) as [->|Hne].
    + left. apply lookup_delete_eq.
    + right. by apply lookup_delete_ne.
  - intros other Hne. rewrite Hs, lookup_alter_ne by done. split; [done|].
    destruct Hl as [Hl|Hl]; rewrite Hl; [done|]. by apply lookup_delete_ne.
Qed.

Lemma updatePerformance_fields agentId result st :
  activeLoops (updatePerformance agentId result st) = activeLoops st
  ∧ agentStates (updatePerformance agentId result st)
    = alter (λ a, with_performance (bump_performance result (performance a)) a)
        agentId (agentStates st)
  ∧ statusPosts (updatePerformance agentId result st) = statusPosts st.
Proof.
  unfold updatePerformance. destruct (agentStates st !! agentId) as [a|] eqn:Ha; simpl.
  - split; [done|]. split; [|done]. apply map_eq. intros id.
    destruct (decide (id = agentId)) as [->|Hne].
    + by rewrite lookup_insert_eq, lookup_alter_eq, Ha.
    + by rewrite lookup_insert_ne, lookup_alter_ne.
  - split; [done|]. split; [|done]. apply map_eq. intros id.
    destruct (decide (id = agentId)) as [->|Hne].
    + by rewrite lookup_alter_eq, Ha.
    + by rewrite lookup_alter_ne.
Qed.

Lemma counted_evolves result a :
  evolves a (with_performance (bump_performance result (performance a)) a).
Proof.
  unfold evolves, errorCount. simpl. repeat split; try lia; [..|by left];
    destruct result; lia.
Qed.

Lemma with_status_evolves s a :
  s = AgError ∨ s = AgStopped → evolves a (with_status s a).
Proof. unfold evolves, errorCount. simpl. intros Hs. repeat split; try lia. tauto. Qed.

Lemma handleDecisionError_in_place agentId st :
  ∃ f, agentStates (handleDecisionError be agentId st).2 = alter f agentId (agentStates st)
       ∧ (∀ a, evolves a (f a))
       ∧ (activeLoops (handleDecisionError be agentId st).2 = activeLoops st
          ∨ activeLoops (handleDecisionError be agentId st).2
            = delete agentId (activeLoops st)).
Proof.
  unfold handleDecisionError. destruct (agentStates st !! agentId) as [a|] eqn:Ha.
  - destruct (mark_fields agentId AgError st) as (Hl & Hs & _).
    assert (Hmarked :
      ∃ f, agentStates (updateAgentStatus be agentId AgError (mark agentId AgError st)).2
           = alter f agentId (agentStates st)
           ∧ (∀ a, evolves a (f a))
           ∧ (activeLoops (updateAgentStatus be agentId AgError
                             (mark agentId AgError st)).2 = activeLoops st
              ∨ activeLoops (updateAgentStatus be agentId AgError
                               (mark agentId AgError st)).2
                = delete agentId (activeLoops st))).
    { exists (with_status AgError). unfold updateAgentStatus.
      cbn [snd activeLoops agentStates]. rewrite Hl, Hs.
      split; [done|]. split; [|by left].
      intros a0. apply with_status_evolves. by left. }
    destruct (updateAgentStatus be agentId AgError (mark agentId AgError st))
      as [[[]|e] st1] eqn:Hupd; [|exact Hmarked].
    case_bool_decide; [|exact Hmarked].
    destruct (stopAgent_fields be agentId st1) as (_ & Hl' & Hs' & _).
    exists (λ a, with_status AgStopped (with_status AgError a)).
    rewrite Hl', Hs'.
    assert (Hst1 : st1 = (updateAgentStatus be agentId AgError
                            (mark agentId AgError st)).2) by (by rewrite Hupd).
    rewrite Hst1. unfold updateAgentStatus. cbn [snd activeLoops agentStates].
    rewrite Hl, Hs. split; [|split; [|by right]].
    + apply map_eq. intros id. destruct (decide (id = agentId)) as [->|Hne].
      * rewrite !lookup_alter_eq. by destruct (agentStates st !! agentId).
      * by rewrite !lookup_alter_ne.
    + intros a0. apply (with_status_evolves AgStopped a0). by right.
  - exists (λ a, a). split; [|split; [|by left]].
    + apply map_eq. intros id. destruct (decide (id = agentId)) as [->|Hne].
      * by rewrite lookup_alter_eq, Ha.
      * by rewrite lookup_alter_ne.
    + apply evolves_refl.
Qed.

Lemma cycle_in_place inp agent st :
  ∃ f, agentStates (executeDecisionCycle be inp agent st).2
       = alter f (agent_id agent) (agentStates st)
       ∧ (∀ a, evolves a (f a))
       ∧ (activeLoops (executeDecisionCycle be inp agent st).2 = activeLoops st
          ∨ activeLoops (executeDecisionCycle be inp agent st).2
            = delete (agent_id agent) (activeLoops st)).
Proof.
  assert (Hcount : ∀ result (o : Outcome unit),
    ∃ f, agentStates (o, updatePerformance (agent_id agent) result st).2
         = alter f (agent_id agent) (agentStates st)
         ∧ (∀ a, evolves a (f a))
         ∧ (activeLoops (o, updatePerformance (agent_id agent) result st).2
            = activeLoops st
            ∨ activeLoops (o, updatePerformance (agent_id agent) result st).2
              = delete (agent_id agent) (activeLoops st))).
  { intros result o.
    destruct (updatePerformance_fields (agent_id agent) result st) as (Hl & Hs & _).
    eexists. split; [exact Hs|]. split; [|by left].
    intros a. apply counted_evolves. }
  unfold executeDecisionCycle.
  destruct (cy_decision inp); [|apply handleDecisionError_in_place].
  destruct (validateDecision _ _ _).
  - destruct (cy_execution inp), (cy_memory inp);
      try apply handleDecisionError_in_place. apply Hcount.
  - destruct (cy_memory inp); [apply Hcount|apply handleDecisionError_in_place].
Qed.

Lemma tick_evolves inp agentId st : loop_evolves st (tick be inp agentId st).
Proof.
  unfold tick. destruct (activeLoops st !! agentId) as [tm|]; [|apply loop_evolves_refl].
  destruct (cycle_in_place inp (timer_agent tm) st) as (f & Hs & Hf & Hl).
  by apply (in_place_evolves f (agent_id (timer_agent tm))).
Qed.

(** X20: However the timers of the agents fire and whatever their cycles
    meet, the callbacks only wear the loop down: no agent is added or
    dropped, no agent's counters decrease (so successes never come to
    exceed decisions), no status goes back to Active or Paused (a status
    changes only to Error or Stopped), and no timer is armed or replaced;
    a timer can only disappear. *)
Theorem ticks_never_reactivate (events : list (string * CycleInputs)) st :
  let st' := fire be events st in
  loop_evolves st st'
  ∧ (∀ id a a', agentStates st !! id = Some a → agentStates st' !! id = Some a' →
       0 ≤ errorCount a → 0 ≤ errorCount a')
  ∧ (∀ id a a', agentStates st !! id = Some a → agentStates st' !! id = Some a' →
       status a ≠ AgActive → status a' ≠ AgActive).
Proof.
  assert (Hev : loop_evolves st (fire be events st)).
  { induction events as [|e events IH] using rev_ind; [apply loop_evolves_refl|].
    unfold fire in *. rewrite fold_left_app. simpl.
    eapply loop_evolves_trans; [exact IH|apply tick_evolves]. }
  split; [done|]. destruct Hev as (Ha & _). split.
  - intros id a a' Hid Hid' Hpos. destruct (Ha id a Hid) as (b & Hb & Hab).
    rewrite Hid' in Hb. injection Hb as <-.
    destruct Hab as (_ & _ & _ & _ & Hcount & _). lia.
  - intros id a a' Hid Hid' Hnot. destruct (Ha id a Hid) as (b & Hb & Hab).
    rewrite Hid' in Hb. injection Hb as <-.
    destruct Hab as (_ & _ & _ & _ & _ & [->|[->| ->]]); done.
Qed.

(** X21: A tick of one agent's timer touches no other agent: the state and
    the timer of every other agent are as before. *)
Theorem tick_touches_one_agent inp agentId st tm other :
  activeLoops st !! agentId = Some tm →
  agent_id (timer_agent tm) = agentId →
  other ≠ agentId →
  agentStates (tick be inp agentId st) !! other = agentStates st !! other
  ∧ activeLoops (tick be inp agentId st) !! other = activeLoops st !! other.
Proof.
  intros Htm Hid Hne. unfold tick. rewrite Htm.
  destruct (cycle_in_place inp (timer_agent tm) st) as (f & Hs & Hf & Hl).
  rewrite Hid in Hs, Hl.
  by apply (in_place_evolves f agentId st _ Hs Hf Hl).
Qed.
End Ticks.

(** ** The decision loop: completed cycles and the bulk operations *)

Section Cycles.
Context (be : Backend).
Implicit Types (st : LoopState) (agentId : string) (inp : CycleInputs).

(** X22: A cycle that completes (its decision executed, or rejected by the
    validator) counts one decision, and one success exactly when the
    decision passed validation against the configuration the timer was
    armed with. The counters are those of the agent tracked under the id
    that the record the timer was armed with carries (the agent of the
    timer itself when it was started under the id of its record). The
    cycle changes neither that agent's status (an agent in Error stays in
    Error after a successful cycle), nor any timer, nor the posted
    statuses. *)
Theorem completed_cycle_counts_one_decision inp agentId st tm a :
  activeLoops st !! agentId = Some tm →
  agentStates st !! agent_id (timer_agent tm) = Some a →
  cycle_fails inp (timer_agent tm) = false →
  let counted := agent_id (timer_agent tm) in
  let st' := tick be inp agentId st in
  ∃ decision a',
    cy_decision inp = Returned decision
    ∧ agentStates st' !! counted = Some a'
    ∧ totalDecisions (performance a') = totalDecisions (performance a) + 1
    ∧ successfulDecisions (performance a')
      = successfulDecisions (performance a)
        + (if validateDecision decision (cy_portfolio inp) (config (timer_agent tm))
           then 1 else 0)
    ∧ status a' = status a
    ∧ (∀ other, other ≠ counted → agentStates st' !! other = agentStates st !! other)
    ∧ activeLoops st' = activeLoops st
    ∧ statusPosts st' = statusPosts st.
Proof.
  intros Htm Ha Hok counted st'. subst counted st'. unfold tick. rewrite Htm.
  unfold cycle_fails in Hok. unfold executeDecisionCycle.
  destruct (cy_decision inp) as [decision|]; [|done].
  exists decision.
  assert (Hcount : ∀ result,
    ∃ a', agentStates (updatePerformance (agent_id (timer_agent tm)) result st)
            !! agent_id (timer_agent tm) = Some a'
          ∧ totalDecisions (performance a') = totalDecisions (performance a) + 1
          ∧ successfulDecisions (performance a')
            = successfulDecisions (performance a)
              + (match result with RSuccess => 1 | _ => 0 end)
          ∧ status a' = status a
          ∧ (∀ other, other ≠ agent_id (timer_agent tm) →
               agentStates (updatePerformance (agent_id (timer_agent tm)) result st)
                 !! other
               = agentStates st !! other)
          ∧ activeLoops (updatePerformance (agent_id (timer_agent tm)) result st)
            = activeLoops st
          ∧ statusPosts (updatePerformance (agent_id (timer_agent tm)) result st)
            = statusPosts st).
  { intros result.
    destruct (updatePerformance_fields (agent_id (timer_agent tm)) result st)
      as (Hl & Hs & Hp).
    rewrite Hl, Hs, Hp, lookup_alter_eq, Ha. simpl. eexists. split; [done|].
    simpl. split; [done|]. split; [destruct result; lia|]. split; [done|].
    split; [|done]. intros other Hne. by rewrite lookup_alter_ne. }
  destruct (validateDecision decision _ _).
  - destruct (cy_execution inp), (cy_memory inp); try done.
    destruct (Hcount RSuccess) as (a' & Hfacts). by exists a'.
  - destruct (cy_memory inp); [|done].
    destruct (Hcount RValidationFailed) as (a' & Hfacts). by exists a'.
Qed.

(** The state after stopping the agents of a list one after the other,
    whatever the saves do. *)
Local Abbreviation stopped_all ids st :=
  (fold_left (λ s i, (stopAgent be i s).2) ids st).

Lemma stopped_all_lookup (ids : list string) st (id : string) :
  activeLoops (stopped_all ids st) !! id
  = (if bool_decide (id ∈ ids) then None else activeLoops st !! id)
  ∧ agentStates (stopped_all ids st) !! id
    = (if bool_decide (id ∈ ids) then with_status AgStopped <$> agentStates st !! id
       else agentStates st !! id).
Proof.
  revert st. induction ids as [|i ids IH]; intros st; [done|].
  cbn [fold_left]. destruct (IH (stopAgent be i st).2) as [Hl Hs]. rewrite Hl, Hs.
  destruct (stopAgent_fields be i st) as (_ & Hl' & Hs' & _). rewrite Hl', Hs'.
  destruct (decide (id = i)) as [->|Hne].
  - rewrite (bool_decide_true (i ∈ i :: ids)) by apply list_elem_of_here.
    rewrite lookup_delete_eq, lookup_alter_eq.
    split; [by case_bool_decide|].
    case_bool_decide; [|done]. by destruct (agentStates st !! i).
  - rewrite lookup_delete_ne, lookup_alter_ne by done.
    assert (Hiff : id ∈ i :: ids ↔ id ∈ ids) by (rewrite elem_of_cons; tauto).
    by rewrite (bool_decide_ext _ _ Hiff).
Qed.

Lemma stopped_all_posts (ids : list string) st :
  statusPosts (stopped_all ids st)
  = statusPosts st ++ ((λ id, (id, AgStopped)) <$> ids).
Proof.
  revert st. induction ids as [|i ids IH]; intros st; [by rewrite app_nil_r|].
  cbn [fold_left]. rewrite IH. destruct (stopAgent_fields be i st) as (_ & _ & _ & ->).
  by rewrite <- app_assoc.
Qed.

(** [stopAllAgents] goes on while the saves go through. *)
Lemma stopAllAgents_returns (ids : list string) st :
  (∀ k id, ids !! k = Some id →
     is_returned (saveStatus be (length (statusPosts st) + k) id AgStopped) = true) →
  stopAllAgents be ids st = (Returned (), stopped_all ids st).
Proof.
  revert st. induction ids as [|i ids IH]; intros st Hsaves; [done|].
  cbn [stopAllAgents fold_left].
  destruct (stopAgent_fields be i st) as (Hout & _ & _ & Hposts).
  pose proof (Hsaves 0%nat i eq_refl) as Hfirst. rewrite Nat.add_0_r, <- Hout in Hfirst.
  destruct (stopAgent be i st) as [[[]|e] st1]; [|done]. cbn [snd] in *.
  apply IH. intros k id Hk. rewrite Hposts, length_app. simpl.
  replace (length (statusPosts st) + 1 + k)%nat with (length (statusPosts st) + S k)%nat
    by lia.
  by apply Hsaves.
Qed.

(** The first stop whose save throws ends it. *)
Lemma stopAllAgents_throws (stopped : list string) id rest st :
  (∀ k i, stopped !! k = Some i →
     is_returned (saveStatus be (length (statusPosts st) + k) i AgStopped) = true) →
  is_returned (saveStatus be (length (statusPosts st) + length stopped) id AgStopped)
  = false →
  is_returned (stopAllAgents be (stopped ++ id :: rest) st).1 = false
  ∧ (stopAllAgents be (stopped ++ id :: rest) st).2 = stopped_all (stopped ++ [id]) st.
Proof.
  revert st. induction stopped as [|i stopped IH]; intros st Hsaves Hthrow.
  - cbn [app stopAllAgents fold_left length] in *.
    destruct (stopAgent_fields be id st) as (Hout & _).
    rewrite Nat.add_0_r, <- Hout in Hthrow.
    by destruct (stopAgent be id st) as [[[]|e] st1].
  - cbn [app stopAllAgents fold_left].
    destruct (stopAgent_fields be i st) as (Hout & _ & _ & Hposts).
    pose proof (Hsaves 0%nat i eq_refl) as Hfirst. rewrite Nat.add_0_r, <- Hout in Hfirst.
    destruct (stopAgent be i st) as [[[]|e] st1]; [|done]. cbn [snd] in *.
    apply IH.
    + intros k j Hk. rewrite Hposts, length_app. simpl.
      replace (length (statusPosts st) + 1 + k)%nat
        with (length (statusPosts st) + S k)%nat by lia.
      by apply Hsaves.
    + rewrite Hposts, length_app. simpl. simpl in Hthrow.
      by replace (length (statusPosts st) + 1 + length stopped)%nat
        with (length (statusPosts st) + S (length stopped))%nat by lia.
Qed.

Lemma stopAllAgents_returned (ids : list string) st :
  is_returned (stopAllAgents be ids st).1 = true →
  ∀ k id, ids !! k = Some id →
    is_returned (saveStatus be (length (statusPosts st) + k) id AgStopped) = true.
Proof.
  revert st. induction ids as [|i ids IH]; intros st Hret k id Hk; [done|].
  cbn [stopAllAgents] in Hret.
  destruct (stopAgent_fields be i st) as (Hout & _ & _ & Hposts).
  destruct (stopAgent be i st) as [[[]|e] st1]; [|done]. cbn [fst snd] in *.
  destruct k as [|k].
  - injection Hk as <-. by rewrite Nat.add_0_r, <- Hout.
  - specialize (IH st1 Hret k id Hk). rewrite Hposts, length_app in IH. simpl in IH.
    by replace (length (statusPosts st) + S k)%nat
      with (length (statusPosts st) + 1 + k)%nat by lia.
Qed.

(** X23: Stopping all agents, given the ids that have a timer. It returns
    exactly when the status save of every stop goes through, and then no
    timer is armed, every tracked agent that had one is Stopped, every
    other agent (one that was paused, or was left in Error with its timer
    already cancelled) is as it was, and one 'stopped' status is posted
    per id. The first stop whose save throws ends it: the timers of the
    agents up to and including that one are cancelled, and the timers of
    the agents after it stay armed. *)
Theorem stopAllAgents_stops_the_armed (ids : list string) st :
  (∀ id, id ∈ ids ↔ is_Some (activeLoops st !! id)) →
  let r := stopAllAgents be ids st in
  let n := length (statusPosts st) in
  (is_returned r.1 = true ↔
     ∀ k id, ids !! k = Some id →
       is_returned (saveStatus be (n + k) id AgStopped) = true)
  ∧ (is_returned r.1 = true →
     activeLoops r.2 = ∅
     ∧ (∀ id, id ∈ ids →
          agentStates r.2 !! id = with_status AgStopped <$> agentStates st !! id)
     ∧ (∀ id, id ∉ ids → agentStates r.2 !! id = agentStates st !! id)
     ∧ statusPosts r.2 = statusPosts st ++ ((λ id, (id, AgStopped)) <$> ids))
  ∧ (∀ stopped id rest,
       ids = stopped ++ id :: rest →
       (∀ k i, stopped !! k = Some i →
          is_returned (saveStatus be (n + k) i AgStopped) = true) →
       is_returned (saveStatus be (n + length stopped) id AgStopped) = false →
       is_returned r.1 = false
       ∧ (∀ j, j ∈ stopped ++ [id] → activeLoops r.2 !! j = None)
       ∧ (∀ j, j ∉ stopped ++ [id] → activeLoops r.2 !! j = activeLoops st !! j)
       ∧ statusPosts r.2
         = statusPosts st ++ ((λ id, (id, AgStopped)) <$> stopped ++ [id])).
Proof.
  intros Hids r n. subst r n. split; [|split].
  - split; [apply stopAllAgents_returned|].
    intros Hsaves. by rewrite (stopAllAgents_returns ids st Hsaves).
  - intros Hret.
    rewrite (stopAllAgents_returns ids st (stopAllAgents_returned ids st Hret)).
    cbn [snd]. split; [|split; [|split]].
    + apply map_eq. intros id. rewrite lookup_empty.
      destruct (stopped_all_lookup ids st id) as [-> _].
      case_bool_decide as Hin; [done|].
      rewrite Hids in Hin. by apply eq_None_not_Some.
    + intros id Hin. destruct (stopped_all_lookup ids st id) as [_ ->].
      by rewrite bool_decide_true.
    + intros id Hout. destruct (stopped_all_lookup ids st id) as [_ ->].
      by rewrite bool_decide_false.
    + apply stopped_all_posts.
  - intros stopped id rest -> Hsaves Hthrow.
    destruct (stopAllAgents_throws stopped id rest st Hsaves Hthrow) as [-> ->].
    split; [done|]. split; [|split].
    + intros j Hj. destruct (stopped_all_lookup (stopped ++ [id]) st j) as [-> _].
      by rewrite bool_decide_true.
    + intros j Hj. destruct (stopped_all_lookup (stopped ++ [id]) st j) as [-> _].
      by rewrite bool_decide_false.
    + apply stopped_all_posts.
Qed.

Lemma startAgent_returns agentId st agent :
  (∀ k id s, is_returned (saveStatus be k id s) = true) →
  loadAgent be agentId = Returned (Some agent) →
  startAgent be agentId st
  = (Returned (),
     (updateAgentStatus be agentId AgActive
        (arm agentId agent (stopAgent be agentId st).2)).2).
Proof.
  intros Hsaves Hload. rewrite (startAgent_loaded be agentId st agent Hload).
  pose proof (Hsaves (length (statusPosts st)) agentId AgStopped) as H1.
  pose proof (Hsaves (S (length (statusPosts st))) agentId AgActive) as H2.
  destruct (saveStatus be (length (statusPosts st)) agentId AgStopped) as [[]|e1];
    [|done].
  by destruct (saveStatus be (S (length (statusPosts st))) agentId AgActive) as [[]|e2].
Qed.

Lemma start_each_keeps_running (agents : list BackendAgent) st (id : string) :
  (∀ k id s, is_returned (saveStatus be k id s) = true) →
  (∀ a, a ∈ agents → eligible a = true →
     ∃ agent, loadAgent be (ba_id a) = Returned (Some agent)) →
  (is_Some (activeLoops st !! id) ∧ status <$> agentStates st !! id = Some AgActive)
  ∨ (∃ a, a ∈ agents ∧ eligible a = true ∧ ba_id a = id) →
  is_Some (activeLoops (start_each be agents st) !! id)
  ∧ status <$> agentStates (start_each be agents st) !! id = Some AgActive.
Proof.
  intros Hsaves. revert st. induction agents as [|a agents IH]; intros st Hload Hid.
  { destruct Hid as [?|(a & Ha & _)]; [done|]. by apply elem_of_nil in Ha. }
  assert (Hload' : ∀ b, b ∈ agents → eligible b = true →
            ∃ agent, loadAgent be (ba_id b) = Returned (Some agent)).
  { intros b Hb. apply Hload. by apply list_elem_of_further. }
  simpl. destruct (eligible a) eqn:Hel.
  - destruct (Hload a (list_elem_of_here _ _) Hel) as [agent Hagent].
    rewrite (startAgent_returns (ba_id a) st agent Hsaves Hagent).
    apply (IH _ Hload').
    destruct (armed_fields be (ba_id a) st agent) as (-> & -> & _).
    destruct (decide (id = ba_id a)) as [->|Hne].
    + left. rewrite !lookup_insert_eq. split; [by eexists|done].
    + rewrite !lookup_insert_ne, lookup_delete_ne, lookup_alter_ne by done.
      destruct Hid as [?|(b & [->|Hb]%elem_of_cons & Hb' & Hbid)];
        [by left|done|].
      right. by exists b.
  - apply (IH _ Hload').
    destruct Hid as [?|(b & [->|Hb]%elem_of_cons & Hb' & Hbid)];
      [by left|congruence|].
    right. by exists b.
Qed.

(** X24: When the agent listing fails, the bulk start changes nothing. When
    it succeeds, every listed agent that is 'active' or flagged auto_start
    can be loaded, and no status save throws, each of them ends up with an
    armed timer and status Active. *)
Theorem startAllAgents_starts_all_when_none_fails st :
  (∀ e, listAgents be = Thrown e → startAllAgents be st = st)
  ∧ (∀ agents,
       listAgents be = Returned agents →
       (∀ k id s, is_returned (saveStatus be k id s) = true) →
       (∀ a, a ∈ agents → eligible a = true →
          ∃ agent, loadAgent be (ba_id a) = Returned (Some agent)) →
       ∀ a, a ∈ agents → eligible a = true →
         is_Some (activeLoops (startAllAgents be st) !! ba_id a)
         ∧ status <$> agentStates (startAllAgents be st) !! ba_id a = Some AgActive).
Proof.
  unfold startAllAgents. split.
  - by intros e ->.
  - intros agents -> Hsaves Hload a Ha Hel.
    apply (start_each_keeps_running agents st (ba_id a) Hsaves Hload).
    right. by exists a.
Qed.

(** The double product of a number and zero. *)
Lemma times_zero_class (q : float) :
  Prim2SF (q * 0)%float
  = match Prim2SF q with
    | S754_zero s | S754_finite s _ _ => S754_zero s
    | _ => S754_nan
    end.
Proof.
  rewrite FloatAxioms.mul_spec. change (Prim2SF 0%float) with (S754_zero false).
  destruct (Prim2SF q) as [[]|[]| |[] m e]; reflexivity.
Qed.

Lemma finite_class (q : float) :
  is_finite q = true →
  ∃ s, Prim2SF q = S754_zero s ∨ ∃ m e, Prim2SF q = S754_finite s m e.
Proof.
  unfold is_finite, is_nan, is_infinity.
  rewrite !FloatAxioms.eqb_spec, FloatAxioms.abs_spec.
  change (Prim2SF infinity) with (S754_infinity false).
  destruct (Prim2SF q) as [s|[]| |s m e]; try done; intros _; exists s; eauto.
Qed.

(** X25: A buy without a price (absent or 0) has estimated cost 0 whatever
    its quantity, so the risk rule lets it through whenever the limit
    cash × maxRiskPerTrade is not negative. (For a quantity that is not
    finite the double product quantity × 0 is NaN, which exceeds no limit
    either.) *)
Theorem buy_without_price_passes_risk_rule (d : AIDecision) (p : Portfolio)
    (c : AgentConfig) :
  str_truthy (action d) = true →
  str_truthy (reasoning d) = true →
  num_truthy (price d) = false →
  (0 <=? max_risk p c)%float = true →
  symbol d = None ∨ (∃ s, symbol d = Some s ∧ s ∈ symbols c) →
  (is_finite (default 0%float (quantity d)) = true → is_zero (estimated_cost d) = true)
  ∧ validateDecision d p c = true.
Proof.
  intros Ha Hr Hprice Hlimit Hsym.
  assert (Hcost : estimated_cost d = (default 0 (quantity d) * 0)%float).
  { unfold estimated_cost, num_or. by rewrite Hprice. }
  split.
  - intros (s & Hclass)%finite_class. rewrite Hcost. unfold is_zero.
    rewrite FloatAxioms.eqb_spec, times_zero_class.
    change (Prim2SF zero) with (S754_zero false).
    by destruct Hclass as [->|(m & e & ->)].
  - apply not_false_iff_true. rewrite validateDecision_rejects_iff.
    intros [[?|?]|[(_ & _ & Hover)|(s & Hs & _ & Hout)]]; [congruence|congruence| |].
    + rewrite Hcost, FloatAxioms.ltb_spec, times_zero_class in Hover.
      rewrite FloatAxioms.leb_spec in Hlimit.
      change (Prim2SF 0%float) with (S754_zero false) in Hlimit.
      destruct (Prim2SF (max_risk p c)) as [[]|[]| |[] m e],
        (Prim2SF (default 0%float (quantity d))) as [s'|s'| |s' m' e']; done.
    + destruct Hsym as [Hnone|(s' & Hs' & Hin)]; [congruence|].
      rewrite Hs in Hs'. injection Hs' as <-. done.
Qed.
End Cycles.

(** ** The further properties on concrete runs *)

Lemma callTool_returns_only_when_cleared_witness :
  ∃ perms tool,
    agentPermissions activated_service !! "agent-1" = Some perms
    ∧ jm_get "analysis.market_sentiment" (tools activated_service) = Some tool
    ∧ enabled tool = true
    ∧ implemented (tool_id tool).
Proof.
  apply (callTool_returns_only_when_cleared agents_only (at_instant 1000 "k3j2h1g0f")
           "agent-1" "analysis.market_sentiment" [] None activated_service).
  reflexivity.
Defined.

Lemma callTool_tool_refusals_witness :
  let clk := at_instant 1000 "k3j2h1g0f" in
  let missing := callTool agents_only clk "agent-1" "defi.swap" [] None service_with_export in
  let bare := callTool agents_only clk "agent-1" "data.export_history" [] None
                service_with_export in
  missing.1 = Thrown "Tool not found or disabled: defi.swap"
  ∧ dispatched missing.2 = []
  ∧ bare.1 = Thrown "Tool not implemented: data.export_history"
  ∧ dispatched bare.2 = [].
Proof.
  intros clk missing bare.
  assert (Hperms : agentPermissions service_with_export !! "agent-1"
                   = Some (createAgentPermissions "agent-1" initial_service))
    by (vm_compute; reflexivity).
  destruct (callTool_tool_refusals agents_only clk "agent-1" "defi.swap" [] None
              service_with_export _ Hperms) as [Hmissing _].
  destruct (callTool_tool_refusals agents_only clk "agent-1" "data.export_history" []
              None service_with_export _ Hperms) as [_ Hbare].
  destruct Hmissing as [Hm1 Hm2]; [vm_compute; discriminate|].
  destruct (Hbare export_tool) as [Hb1 Hb2];
    [vm_compute; reflexivity|reflexivity|..].
  { intros [H|[H|H]]; discriminate H. }
  repeat split; assumption.
Defined.

Lemma callTool_unregistered_agent_is_logged_and_counted_witness :
  let r := callTool null_services (at_instant 1000 "k3j2h1g0f") "stranger"
             "analysis.market_sentiment" [] None initial_service in
  r.1 = Thrown "Agent not registered for MCP"
  ∧ dispatched r.2 = []
  ∧ (totalCalls ∘ usage) <$> jm_get "analysis.market_sentiment" (tools r.2) = Some 1.
Proof.
  intros r.
  destruct (callTool_unregistered_agent_is_logged_and_counted null_services
              (at_instant 1000 "k3j2h1g0f") "stranger" "analysis.market_sentiment" []
              None initial_service) as (Hout & Hnone & _ & Hcount);
    [vm_compute; reflexivity|].
  split; [exact Hout|]. split; [exact Hnone|].
  apply (Hcount market_sentiment_tool). vm_compute; reflexivity.
Defined.

Lemma getCallLogs_after_call_witness :
  let r := callTool agents_only (at_instant 1000 "k3j2h1g0f") "agent-1"
             "analysis.market_sentiment" [] None activated_service in
  length (getCallLogs (Some "agent-1") r.2) = 1%nat
  ∧ getCallLogs (Some "agent-2") r.2 = []
  ∧ length (getCallLogs None r.2) = 1%nat.
Proof.
  intros r.
  destruct (getCallLogs_after_call agents_only (at_instant 1000 "k3j2h1g0f") "agent-1"
              "analysis.market_sentiment" [] None activated_service)
    as ((record & Hown & _) & Hother & _ & Hall);
    [vm_compute; lia|discriminate|].
  split; [fold r in Hown; by rewrite Hown|].
  split; [|exact Hall].
  fold r in Hother. rewrite (Hother "agent-2"); [reflexivity|discriminate..].
Defined.

Lemma place_order_agent_comes_from_context_witness :
  let params := [("symbol", JStr "BTC/USD"); ("side", JStr "buy"); ("amount", JNum 1)] in
  let r := callTool echo_engine (at_instant 1000 "k3j2h1g0f") "agent-1"
             "trading.place_order" params (Some [("agentId", JStr "agent-2")])
             activated_service in
  (log_agentId <$> last (callLogs r.2)) = Some "agent-1"
  ∧ js_get "args" (js_get "order" (match r.1 with Returned v => v | Thrown _ => JNull end))
    = JArr [JStr "agent-2"; JStr "BTC/USD"; JStr "buy"; JNum 1; JStr "market"; JUndefined].
Proof.
  intros params r.
  destruct (place_order_agent_comes_from_context echo_engine
              (at_instant 1000 "k3j2h1g0f") "agent-1" "trading.place_order" params
              (Some [("agentId", JStr "agent-2")]) activated_service
              (createAgentPermissions "agent-1" initial_service) place_order_tool
              (λ args, Returned (JObj [("id", JStr "order-1"); ("args", JArr args)])))
    as (Hlog & _ & _ & Hctx); [reflexivity|vm_compute; reflexivity..|].
  split; [exact Hlog|]. fold r in Hctx.
  rewrite (Hctx [("agentId", JStr "agent-2")] (JStr "agent-2")).
  - reflexivity.
  - reflexivity.
  - apply NoDup_singleton.
  - apply list_elem_of_here.
Defined.

Lemma absent_backend_reports_success_witness :
  let r := callTool agents_only (at_instant 1000 "k3j2h1g0f") "agent-1"
             "trading.place_order" [] None activated_service in
  r.1 = Returned (JObj [("success", JBool true); ("orderId", JUndefined);
                        ("order", JUndefined)])
  ∧ (success <$> last (callLogs r.2)) = Some true.
Proof.
  intros r.
  destruct (absent_backend_reports_success agents_only (at_instant 1000 "k3j2h1g0f")
              "agent-1" "trading.place_order" [] None activated_service
              (createAgentPermissions "agent-1" initial_service) place_order_tool)
    as [Horder _]; [vm_compute; reflexivity..|].
  apply Horder; reflexivity.
Defined.

Lemma activation_grants_whole_categories_witness :
  place_order_tool ∈ getAvailableTools "agent-1" activated_service
  ∧ ¬ "trading.execute" ∈ ["trading.read"; "analysis.read"; "system.write"; "data.write"].
Proof.
  split.
  - apply (activation_grants_whole_categories agents_only "agent-1" 1000 1000
             initial_service "agent-1" place_order_tool); try done.
    apply list_elem_of_here.
  - intros Hin. repeat (apply elem_of_cons in Hin as [Hin|Hin]; [discriminate Hin|]).
    by apply elem_of_nil in Hin.
Defined.

Lemma requireApproval_does_not_gate_calls_witness :
  let r := callTool agents_only (at_instant 1000 "k3j2h1g0f") "agent-1"
             "trading.place_order" [("symbol", JStr "BTC/USD")] None activated_service in
  dispatched r.2 = [("trading.place_order", [("symbol", JStr "BTC/USD")])].
Proof.
  intros r.
  apply (requireApproval_does_not_gate_calls agents_only "agent-1" 1000 1000
           (at_instant 1000 "k3j2h1g0f") "trading.place_order"
           [("symbol", JStr "BTC/USD")] None initial_service "agent-1" place_order_tool);
    reflexivity.
Defined.


Lemma tool_usage_after_calls_witness :
  let st' := record_usages "analysis.market_sentiment"
               [(true, 40, 1040); (true, 20, 2020); (false, 30, 3030)] initial_service in
  (∃ u',
     jm_get "analysis.market_sentiment" (tools st')
     = Some (with_usage u' market_sentiment_tool)
     ∧ totalCalls u' = 3 ∧ lastUsed u' = 3030)
  ∧ jm_get "trading.place_order" (tools st')
    = jm_get "trading.place_order" (tools initial_service).
Proof.
  intros st'.
  destruct (tool_usage_after_calls "analysis.market_sentiment"
              [(true, 40, 1040); (true, 20, 2020); (false, 30, 3030)] initial_service
              market_sentiment_tool) as [(u' & Htool & Hcount & Hlast) Hothers];
    [reflexivity|].
  split.
  - exists u'. split; [exact Htool|]. split; [exact Hcount|exact Hlast].
  - apply Hothers. discriminate.
Defined.

Lemma startAgent_arms_the_loaded_agent_witness :
  let st' := (startAgent example_backend "agent-1" empty_loop).2 in
  timer_interval <$> activeLoops st' !! "agent-1" = Some 30000
  ∧ status <$> agentStates st' !! "agent-1" = Some AgActive
  ∧ statusPosts st' = [("agent-1", AgStopped); ("agent-1", AgActive)].
Proof.
  intros st'.
  destruct (startAgent_arms_the_loaded_agent example_backend "agent-1" empty_loop
              (fresh_agent "agent-1")) as (Htm & _ & _ & Hst & _ & Hposts);
    [reflexivity|vm_compute; reflexivity|].
  fold st' in Htm, Hst, Hposts. rewrite Htm, Hst, Hposts. repeat split.
Defined.

(** Two agents running: a failed cycle of "agent-1" puts it in Error and
    leaves "agent-2" Active with its timer. *)
Lemma tick_touches_one_agent_witness :
  let st := startAllAgents healthy_backend empty_loop in
  let st' := tick healthy_backend failing_cycle "agent-1" st in
  (agentStates st' !! "agent-2" = agentStates st !! "agent-2"
   ∧ activeLoops st' !! "agent-2" = activeLoops st !! "agent-2")
  ∧ status <$> agentStates st !! "agent-2" = Some AgActive
  ∧ timer_interval <$> activeLoops st !! "agent-2" = Some 30000
  ∧ status <$> agentStates st' !! "agent-1" = Some AgError.
Proof.
  intros st st'. split; [|vm_compute; repeat split].
  apply (tick_touches_one_agent healthy_backend failing_cycle "agent-1" st
           {| timer_agent := fresh_agent "agent-1"; timer_interval := 30000 |} "agent-2").
  - vm_compute; reflexivity.
  - reflexivity.
  - discriminate.
Defined.

Lemma completed_cycle_counts_one_decision_witness :
  let errored := tick example_backend failing_cycle "agent-1" started_loop in
  let st' := tick example_backend executed_cycle "agent-1" errored in
  ∃ a',
    agentStates st' !! "agent-1" = Some a'
    ∧ totalDecisions (performance a') = 1
    ∧ successfulDecisions (performance a') = 1
    ∧ status a' = AgError.
Proof.
  intros errored st'.
  destruct (completed_cycle_counts_one_decision example_backend executed_cycle
              "agent-1" errored
              {| timer_agent := fresh_agent "agent-1"; timer_interval := 30000 |}
              (with_status AgError (fresh_agent "agent-1")))
    as (decision & a' & Hd & Ha' & Htotal & Hsucc & Hstatus & _);
    [vm_compute; reflexivity|vm_compute; reflexivity|reflexivity|].
  exists a'. split; [exact Ha'|]. split; [exact Htotal|]. split; [|exact Hstatus].
  injection Hd as <-. exact Hsucc.
Defined.

(** Two agents running: with every save going through both are
    stopped; with the browser storage full at the first stop, "agent-1"
    loses its timer and "agent-2" keeps running. *)
Lemma stopAllAgents_stops_the_armed_witness :
  let st := startAllAgents healthy_backend empty_loop in
  let r := stopAllAgents healthy_backend ["agent-1"; "agent-2"] st in
  let r' := stopAllAgents (failing_from 4) ["agent-1"; "agent-2"] st in
  (is_returned r.1 = true ∧ activeLoops r.2 = ∅
   ∧ status <$> agentStates r.2 !! "agent-2" = Some AgStopped)
  ∧ (is_returned r'.1 = false ∧ activeLoops r'.2 !! "agent-1" = None
     ∧ activeLoops r'.2 !! "agent-2" = activeLoops st !! "agent-2"
     ∧ is_Some (activeLoops st !! "agent-2")).
Proof.
  intros st r r'.
  assert (Hloops : activeLoops st
                   = <["agent-1" := {| timer_agent := fresh_agent "agent-1";
                                       timer_interval := 30000 |}]>
                       (<["agent-2" := {| timer_agent := fresh_agent "agent-2";
                                          timer_interval := 30000 |}]> ∅))
    by (vm_compute; reflexivity).
  assert (Hids : ∀ id, id ∈ ["agent-1"; "agent-2"] ↔ is_Some (activeLoops st !! id)).
  { intros id. rewrite Hloops, !elem_of_cons, elem_of_nil.
    destruct (decide (id = "agent-1")) as [->|Hne1].
    { rewrite lookup_insert_eq. split; [by eexists|by left]. }
    rewrite lookup_insert_ne by done.
    destruct (decide (id = "agent-2")) as [->|Hne2].
    { rewrite lookup_insert_eq. split; [by eexists|by right; left]. }
    rewrite lookup_insert_ne, lookup_empty by done.
    split; [by intros [?|[?|?]]|by intros [? ?]]. }
  split.
  - destruct (stopAllAgents_stops_the_armed healthy_backend ["agent-1"; "agent-2"] st Hids)
      as (Hreturns & Hstopped & _).
    assert (Hret : is_returned r.1 = true) by (apply Hreturns; by intros k id _).
    destruct (Hstopped Hret) as (Hnone & Hstatus & _).
    split; [exact Hret|]. split; [exact Hnone|]. fold r in Hstatus.
    rewrite (Hstatus "agent-2") by apply list_elem_of_further, list_elem_of_here.
    vm_compute; reflexivity.
  - destruct (proj2 (proj2 (stopAllAgents_stops_the_armed (failing_from 4)
                              ["agent-1"; "agent-2"] st Hids))
                [] "agent-1" ["agent-2"] eq_refl)
      as (Hthrown & Hgone & Hkept & _).
    + by intros k i Hk.
    + vm_compute; reflexivity.
    + split; [exact Hthrown|]. split; [apply Hgone, list_elem_of_here|].
      split; [|rewrite Hloops; by eexists]. apply Hkept. cbn [app].
      rewrite list_elem_of_singleton. discriminate.
Defined.

Lemma buy_without_price_passes_risk_rule_witness :
  is_zero (estimated_cost unpriced_buy) = true
  ∧ validateDecision unpriced_buy example_portfolio example_config = true.
Proof.
  destruct (buy_without_price_passes_risk_rule unpriced_buy example_portfolio
              example_config) as [Hzero Hvalid].
  - reflexivity.
  - reflexivity.
  - reflexivity.
  - reflexivity.
  - right. exists "BTC/USD". split; [reflexivity|apply list_elem_of_here].
  - split; [by apply Hzero|exact Hvalid].
Defined.

Lemma activateForAllAgents_attempts_every_agent_witness :
  let agents := [named_agent "ghost" "Ghost" 1000; bare_agent "agent-1" 2000;
                 named_agent "agent-2" "Momentum Two" 3000] in
  let r := activate_each one_agent_service agents initial_service in
  res_agentId <$> r.1 = ["ghost"; "agent-1"; "agent-1"; "agent-2"]
  ∧ res_success <$> r.1 = [false; true; false; false]
  ∧ length r.1 = 4%nat
  ∧ successCount r.1 = 1%nat
  ∧ is_Some (agentPermissions r.2 !! "agent-1").
Proof.
  intros agents r.
  destruct (activateForAllAgents_attempts_every_agent one_agent_service agents
              initial_service) as (Hids & Hoks & Hlen & Hcount & Hreg & _).
  fold r in Hids, Hoks, Hlen, Hcount, Hreg.
  split; [by rewrite Hids|]. split; [by rewrite Hoks|]. split; [by rewrite Hlen|].
  split; [by rewrite Hcount|].
  apply (Hreg (bare_agent "agent-1" 2000)).
  - apply list_elem_of_further, list_elem_of_here.
  - by eexists.
Defined.

(** On a loop where "agent-1" runs: a start of the unloadable "ghost"
    leaves the loop as it is; a restart of "agent-1" whose 'stopped' save
    throws leaves it without a timer; one whose 'active' save throws
    leaves it armed. *)
Lemma startAgent_outcomes_witness :
  let r := startAgent example_backend "ghost" started_loop in
  let r' := startAgent (failing_save 2) "agent-1" started_loop in
  let r'' := startAgent (failing_save 3) "agent-1" started_loop in
  (activeLoops r.2 = activeLoops started_loop
   ∧ agentStates r.2 = agentStates started_loop
   ∧ statusPosts r.2 = statusPosts started_loop ++ [("ghost", AgError)])
  ∧ (activeLoops r'.2 = delete "agent-1" (activeLoops started_loop)
     ∧ status <$> agentStates r'.2 !! "agent-1" = Some AgStopped)
  ∧ (is_returned r''.1 = false
     ∧ timer_interval <$> activeLoops r''.2 !! "agent-1" = Some 30000
     ∧ status <$> agentStates r''.2 !! "agent-1" = Some AgActive).
Proof.
  intros r r' r''. split; [|split].
  - apply (proj1 (proj2 (startAgent_outcomes example_backend "ghost" started_loop))).
    intros agent. discriminate.
  - destruct (proj1 (proj2 (proj2 (startAgent_outcomes (failing_save 2) "agent-1"
                                     started_loop)))
                (fresh_agent "agent-1") eq_refl eq_refl) as (Hl & Hs & _).
    split; [exact Hl|]. fold r' in Hs. rewrite Hs. vm_compute; reflexivity.
  - destruct (proj2 (proj2 (proj2 (startAgent_outcomes (failing_save 3) "agent-1"
                                     started_loop)))
                (fresh_agent "agent-1") eq_refl eq_refl eq_refl) as (Hl & Hs & _).
    fold r'' in Hl, Hs. rewrite Hl, Hs. split; [|done].
    apply not_true_iff_false. intros Hret.
    apply (proj1 (startAgent_outcomes (failing_save 3) "agent-1" started_loop)) in Hret.
    destruct Hret as (_ & _ & Hsaved). vm_compute in Hsaved. discriminate.
Defined.

Lemma ticks_never_reactivate_witness :
  let st' := fire example_backend
               [("agent-1", failing_cycle); ("agent-1", executed_cycle)] started_loop in
  ∃ a', agentStates st' !! "agent-1" = Some a'
        ∧ 0 ≤ errorCount a' ∧ status a' ≠ AgActive.
Proof.
  intros st'. eexists. split; [vm_compute; reflexivity|]. split.
  - eapply (proj1 (proj2 (ticks_never_reactivate example_backend
                           [("agent-1", failing_cycle); ("agent-1", executed_cycle)]
                           started_loop))
              "agent-1" (with_status AgActive (fresh_agent "agent-1"))).
    + vm_compute; reflexivity.
    + vm_compute; reflexivity.
    + vm_compute; discriminate.
  - discriminate.
Defined.

Lemma startAllAgents_starts_all_when_none_fails_witness :
  let st' := startAllAgents healthy_backend empty_loop in
  (is_Some (activeLoops st' !! "agent-1")
   ∧ status <$> agentStates st' !! "agent-1" = Some AgActive)
  ∧ (is_Some (activeLoops st' !! "agent-2")
     ∧ status <$> agentStates st' !! "agent-2" = Some AgActive).
Proof.
  intros st'.
  pose proof (proj2 (startAllAgents_starts_all_when_none_fails healthy_backend empty_loop)
                [listed "agent-1"; listed "agent-2"] eq_refl
                (λ _ _ _, eq_refl)) as Hall.
  assert (Hload : ∀ a, a ∈ [listed "agent-1"; listed "agent-2"] → eligible a = true →
            ∃ agent, loadAgent healthy_backend (ba_id a) = Returned (Some agent))
    by (intros a _ _; by eexists).
  split.
  - apply (Hall Hload (listed "agent-1")); [apply list_elem_of_here|reflexivity].
  - apply (Hall Hload (listed "agent-2"));
      [apply list_elem_of_further, list_elem_of_here|reflexivity].
Defined.
